(** * Analise de RIP 2025

  A shallow embedding of [analiseRip.py]: the month normaliser
  ([_strip_accents], [canonical_month]), the pairing of the spreadsheet
  columns, the melt into long records, the filter / outer-join pivot, the
  ordering of the result and the two-decimal display.

  Python [str] values are lists of Unicode code points.  A spreadsheet
  number is the exact rational value of the float that pandas holds; a
  blank cell (NaN / None) is [None]. *)

From Stdlib Require Import List ZArith NArith QArith Bool Lia.
From Stdlib Require Import Ascii Permutation Sorted.
From Stdlib Require String.
Import String.StringSyntax.
Import ListNotations.
Close Scope Q_scope.
Open Scope list_scope.

(* ================================================================== *)
(** ** Python strings *)

Definition codepoint := N.
Definition str := list codepoint.

(** An ASCII literal of the source, as a [str]. *)
Definition py (s : String.string) : str :=
  map N_of_ascii (String.list_ascii_of_string s).

Arguments py s%_string_scope.

(** [a == b] on [str]. *)
Fixpoint str_eqb (a b : str) : bool :=
match a, b with
| [], [] => true
| x :: a', y :: b' => N.eqb x y && str_eqb a' b'
| _, _ => false
end.

(** [a < b] on [str]: lexicographic on code points. *)
Fixpoint str_ltb (a b : str) : bool :=
match a, b with
| _, [] => false
| [], _ :: _ => true
| x :: a', y :: b' => N.ltb x y || (N.eqb x y && str_ltb a' b')
end.

Definition str_leb (a b : str) : bool := negb (str_ltb b a).

(** [x in l] for a list (or array) of strings. *)
Definition str_in (x : str) (l : list str) : bool := existsb (str_eqb x) l.

(** [d.get(key, default)] for a dict written as its items. *)
Fixpoint dict_get (d : list (str * str)) (key default : str) : str :=
match d with
| [] => default
| (k, v) :: d' => if str_eqb k key then v else dict_get d' key default
end.

(* ================================================================== *)
(** ** The Unicode character database

  [unicodedata] and the [str] methods read the tables of the Unicode
  character database.  The tables are an interface; the algorithms that
  CPython runs over them are written out below. *)

Class UnicodeData := {
(** full canonical decomposition of one code point, [[c]] when it has none *)
decomposition : codepoint -> str;
(** [unicodedata.combining] *)
combining : codepoint -> N;
(** [unicodedata.category(ch) == "Mn"] *)
category_Mn : codepoint -> bool;
(** the test of [str.strip()] and [str.isspace()] *)
isspace : codepoint -> bool;
(** the full lower-case mapping of one code point *)
tolower_full : codepoint -> str;
(** the properties Cased and Case_Ignorable, read by [str.lower()] at a
    capital sigma *)
is_cased : codepoint -> bool;
is_case_ignorable : codepoint -> bool
}.

Definition CAPITAL_SIGMA : codepoint := 0x3A3%N.
Definition SMALL_SIGMA : codepoint := 0x3C3%N.
Definition FINAL_SIGMA : codepoint := 0x3C2%N.

Section UnicodeAlgorithms.
Context {U : UnicodeData}.

(** *** [unicodedata.normalize("NFD", s)] *)

(** A mark moves back over the marks of a greater combining class;
    [before] is the text already ordered, last character first. *)
Fixpoint bubble (c : codepoint) (before : str) : str :=
  match before with
  | p :: rest =>
      if (combining c <? combining p)%N then p :: bubble c rest
      else c :: before
  | [] => [c]
  end.

Definition place (before : str) (c : codepoint) : str :=
  if (combining c =? 0)%N then c :: before else bubble c before.

Definition canonical_order (s : str) : str := rev (fold_left place s []).

Definition NFD (s : str) : str := canonical_order (flat_map decomposition s).

(** *** [str.strip()] *)

Fixpoint lstrip (s : str) : str :=
  match s with
  | c :: rest => if isspace c then lstrip rest else s
  | [] => []
  end.

Definition rstrip (s : str) : str := rev (lstrip (rev s)).

Definition strip (s : str) : str := rstrip (lstrip s).

(** *** [str.lower()] *)

(** The first character that is not case-ignorable is cased. *)
Fixpoint cased_next (s : str) : bool :=
  match s with
  | c :: rest => if is_case_ignorable c then cased_next rest else is_cased c
  | [] => false
  end.

Definition final_sigma (before after : str) : bool :=
  cased_next before && negb (cased_next after).

Definition lower_char (before : str) (c : codepoint) (after : str) : str :=
  if (c =? CAPITAL_SIGMA)%N
  then [if final_sigma before after then FINAL_SIGMA else SMALL_SIGMA]
  else tolower_full c.

(** [before] holds the characters already read, last one first. *)
Fixpoint do_lower (before s : str) : str :=
  match s with
  | c :: rest => lower_char before c rest ++ do_lower (c :: before) rest
  | [] => []
  end.

Definition lower (s : str) : str := do_lower [] s.

(* ---------------------------------------------------------------- *)
(** ** funcoes utilitarias *)

Definition _strip_accents (s : str) : str :=
  let s := NFD s in
  filter (fun ch => negb (category_Mn ch)) s.

(** A value that reaches [canonical_month]: a [str], or any other object,
    which is known by the text [str(name)] gives for it. *)
Inductive pyobj :=
| PyStr (s : str)
| PyOther (text : str).

Definition mapa : list (str * str) :=
  [ (py "jan", py "Janeiro"); (py "fev", py "Fevereiro");
    (py "mar", py "Marco"); (py "abr", py "Abril");
    (py "mai", py "Maio"); (py "jun", py "Junho");
    (py "jul", py "Julho"); (py "ago", py "Agosto");
    (py "set", py "Setembro"); (py "out", py "Outubro");
    (py "nov", py "Novembro"); (py "dez", py "Dezembro") ].

(** [s[:3]] of the stripped, lower-cased name. *)
Definition month_key (name : str) : str :=
  let s := lower (strip (_strip_accents name)) in
  firstn 3 s.

Definition canonical_month (name : pyobj) : str :=
  match name with
  | PyOther text => text
  | PyStr name => dict_get mapa (month_key name) name
  end.

End UnicodeAlgorithms.

(* ================================================================== *)
(** ** An excerpt of the character database

  Basic Latin, Latin-1 Supplement and the Combining Diacritical Marks
  (U+0300..U+036F), with the white space of every block.  Code points
  outside these blocks are given no decomposition and no case, which is
  not what the full database says of them: the excerpt serves the
  examples, whose texts stay inside these blocks, and no statement about
  every text is made of it. *)

Module Latin.
Open Scope N_scope.

Fixpoint assoc {A : Type} (t : list (N * A)) (c : N) : option A :=
  match t with
  | [] => None
  | (k, v) :: t' => if k =? c then Some v else assoc t' c
  end.

Definition in_range (lo hi c : N) : bool := (lo <=? c) && (c <=? hi).

Definition decomposition_table : list (N * str) :=
[ (0xC0, [0x41; 0x300]); (0xC1, [0x41; 0x301]); (0xC2, [0x41; 0x302]); (0xC3, [0x41; 0x303]);
  (0xC4, [0x41; 0x308]); (0xC5, [0x41; 0x30A]); (0xC7, [0x43; 0x327]); (0xC8, [0x45; 0x300]);
  (0xC9, [0x45; 0x301]); (0xCA, [0x45; 0x302]); (0xCB, [0x45; 0x308]); (0xCC, [0x49; 0x300]);
  (0xCD, [0x49; 0x301]); (0xCE, [0x49; 0x302]); (0xCF, [0x49; 0x308]); (0xD1, [0x4E; 0x303]);
  (0xD2, [0x4F; 0x300]); (0xD3, [0x4F; 0x301]); (0xD4, [0x4F; 0x302]); (0xD5, [0x4F; 0x303]);
  (0xD6, [0x4F; 0x308]); (0xD9, [0x55; 0x300]); (0xDA, [0x55; 0x301]); (0xDB, [0x55; 0x302]);
  (0xDC, [0x55; 0x308]); (0xDD, [0x59; 0x301]); (0xE0, [0x61; 0x300]); (0xE1, [0x61; 0x301]);
  (0xE2, [0x61; 0x302]); (0xE3, [0x61; 0x303]); (0xE4, [0x61; 0x308]); (0xE5, [0x61; 0x30A]);
  (0xE7, [0x63; 0x327]); (0xE8, [0x65; 0x300]); (0xE9, [0x65; 0x301]); (0xEA, [0x65; 0x302]);
  (0xEB, [0x65; 0x308]); (0xEC, [0x69; 0x300]); (0xED, [0x69; 0x301]); (0xEE, [0x69; 0x302]);
  (0xEF, [0x69; 0x308]); (0xF1, [0x6E; 0x303]); (0xF2, [0x6F; 0x300]); (0xF3, [0x6F; 0x301]);
  (0xF4, [0x6F; 0x302]); (0xF5, [0x6F; 0x303]); (0xF6, [0x6F; 0x308]); (0xF9, [0x75; 0x300]);
  (0xFA, [0x75; 0x301]); (0xFB, [0x75; 0x302]); (0xFC, [0x75; 0x308]); (0xFD, [0x79; 0x301]);
  (0xFF, [0x79; 0x308]);
  (0x340, [0x300]); (0x341, [0x301]); (0x343, [0x313]); (0x344, [0x308; 0x301]) ].

(** Combining classes of U+0300..U+036F other than 230. *)
Definition combining_table : list (N * N) :=
[ (0x315, 232); (0x316, 220); (0x317, 220); (0x318, 220); (0x319, 220); (0x31A, 232);
  (0x31B, 216); (0x31C, 220); (0x31D, 220); (0x31E, 220); (0x31F, 220); (0x320, 220);
  (0x321, 202); (0x322, 202); (0x323, 220); (0x324, 220); (0x325, 220); (0x326, 220);
  (0x327, 202); (0x328, 202); (0x329, 220); (0x32A, 220); (0x32B, 220); (0x32C, 220);
  (0x32D, 220); (0x32E, 220); (0x32F, 220); (0x330, 220); (0x331, 220); (0x332, 220);
  (0x333, 220); (0x334, 1); (0x335, 1); (0x336, 1); (0x337, 1); (0x338, 1);
  (0x339, 220); (0x33A, 220); (0x33B, 220); (0x33C, 220); (0x345, 240); (0x347, 220);
  (0x348, 220); (0x349, 220); (0x34D, 220); (0x34E, 220); (0x34F, 0); (0x353, 220);
  (0x354, 220); (0x355, 220); (0x356, 220); (0x358, 232); (0x359, 220); (0x35A, 220);
  (0x35C, 233); (0x35D, 234); (0x35E, 234); (0x35F, 233); (0x360, 234); (0x361, 234);
  (0x362, 233) ].

Definition spaces : list N :=
[ 0x9; 0xA; 0xB; 0xC; 0xD; 0x1C; 0x1D; 0x1E; 0x1F; 0x20; 0x85; 0xA0; 0x1680;
  0x2000; 0x2001; 0x2002; 0x2003; 0x2004; 0x2005; 0x2006; 0x2007; 0x2008;
  0x2009; 0x200A; 0x2028; 0x2029; 0x202F; 0x205F; 0x3000 ].

Definition is_upper (c : N) : bool :=
  in_range 0x41 0x5A c || in_range 0xC0 0xD6 c || in_range 0xD8 0xDE c.

Definition is_letter (c : N) : bool :=
  in_range 0x41 0x5A c || in_range 0x61 0x7A c
  || (c =? 0xAA) || (c =? 0xB5) || (c =? 0xBA)
  || in_range 0xC0 0xD6 c || in_range 0xD8 0xF6 c || in_range 0xF8 0xFF c.

Definition ignorable : list N :=
[ 0x27; 0x2E; 0x3A; 0x5E; 0x60; 0xA8; 0xAD; 0xAF; 0xB4; 0xB7; 0xB8 ].

#[export] Instance ucd : UnicodeData := {|
  decomposition c :=
    match assoc decomposition_table c with Some d => d | None => [c] end;
  combining c :=
    if in_range 0x300 0x36F c
    then match assoc combining_table c with Some k => k | None => 230 end
    else 0;
  category_Mn c := in_range 0x300 0x36F c;
  isspace c := existsb (N.eqb c) spaces;
  tolower_full c := if is_upper c then [c + 32] else [c];
  is_cased c := is_letter c;
  is_case_ignorable c := existsb (N.eqb c) ignorable || in_range 0x300 0x36F c
|}.
End Latin.

(* ================================================================== *)
(** ** The run of the script

    The script runs top to bottom.  [st.warning] shows a message and goes
    on, [st.stop()] ends the run, an exception that nothing catches ends
    it too.  A step is a function of the messages shown so far. *)

Inductive exn :=
| IndexError
| ValueError.

Inductive message :=
| warning_colunas_impar      (* "Numero de colunas de meses e impar. ..." *)
| warning_dois_indicadores   (* "Selecione pelo menos dois indicadores ..." *)
| warning_nenhum_dado.       (* "Nenhum dado corresponde aos filtros ..." *)

Inductive outcome (A : Type) :=
| Returned (a : A)
| Stopped
| Raised (e : exn).

Arguments Returned {A} a.
Arguments Stopped {A}.
Arguments Raised {A} e.

Definition script (A : Type) : Type := list message -> outcome A * list message.

Definition ret {A : Type} (a : A) : script A := fun log => (Returned a, log).

Definition bind {A B : Type} (m : script A) (k : A -> script B) : script B :=
  fun log =>
    match m log with
    | (Returned a, log') => k a log'
    | (Stopped, log') => (Stopped, log')
    | (Raised e, log') => (Raised e, log')
    end.

Definition st_warning (w : message) : script unit :=
  fun log => (Returned tt, log ++ [w]).

Definition st_stop {A : Type} : script A := fun log => (Stopped, log).

Definition raise {A : Type} (e : exn) : script A := fun log => (Raised e, log).

Definition run {A : Type} (m : script A) : outcome A * list message := m [].

Notation "x <- m ;; k" := (bind m (fun x => k))
  (at level 61, m at next level, right associativity).
Notation "m ;;; k" := (bind m (fun _ => k))
  (at level 61, right associativity).

(* ================================================================== *)
(** ** ler planilha: the frame that the script works on

    [df] as it stands at line 52: the sheet that [read_excel] returned,
    without its blank rows and blank columns.  One row holds the indicator
    name of the first column (text or blank) and the cells of the other
    columns (numbers or blanks); [columns] are all the headers, the first
    one included.  A blank is [None]. *)

Record Row := {
  indicador : option str;
  valores : list (option Q)
}.

Record DataFrame := {
  columns : list pyobj;
  rows : list Row
}.

(** Every row has one cell for each column. *)
Definition retangular (df : DataFrame) : bool :=
  forallb (fun r => Nat.eqb (S (length (valores r))) (length (columns df)))
          (rows df).

Definition Hibrido : str := py "Hibrido".
Definition Zebu : str := py "Zebu".
Definition DOT : codepoint := 0x2E%N.

(** The long records after the split of [Mes_Raca]. *)
Record Longo := {
  lg_indicador : option str;
  lg_Mes_nome : option str;
  lg_Raca : option str;
  lg_Valor : option Q
}.

(** A row of [df_final]: the breed is one of the two labels. *)
Record Registro := {
  Indicador : option str;
  Mes_nome : str;
  Raca : str;
  Valor : option Q
}.

(** A row of [df_merge] and of [df_show]: the key and one value for each
    indicator merged so far. *)
Record Linha (V : Type) := {
  l_Mes_nome : str;
  l_Raca : str;
  l_Valor : list (option V)
}.

Arguments l_Mes_nome {V} l.
Arguments l_Raca {V} l.
Arguments l_Valor {V} l.

(** [df_merge]: the indicators [ind] of its columns [Valor_<ind>], and its
    rows. *)
Record Tabela (V : Type) := {
  valor_cols : list str;
  linhas : list (Linha V)
}.

Arguments valor_cols {V} t.
Arguments linhas {V} t.

Definition ordem_meses : list str :=
  [ py "Janeiro"; py "Fevereiro"; py "Marco"; py "Abril"; py "Maio";
    py "Junho"; py "Julho"; py "Agosto"; py "Setembro"; py "Outubro";
    py "Novembro"; py "Dezembro" ].

Definition racas : list str := [Zebu; Hibrido].

(** [Series.unique()]: the first occurrence of each value, in order. *)
Fixpoint unique (seen l : list str) : list str :=
  match l with
  | [] => []
  | x :: l' => if str_in x seen then unique seen l'
               else x :: unique (x :: seen) l'
  end.

(** [sorted(...)] on strings. *)
Fixpoint insert_sorted (x : str) (l : list str) : list str :=
  match l with
  | [] => [x]
  | y :: l' => if str_ltb x y then x :: l else y :: insert_sorted x l'
  end.

Definition sorted (l : list str) : list str :=
  fold_left (fun acc x => insert_sorted x acc) l [].

(** [Series.dropna()]. *)
Fixpoint dropna (l : list (option str)) : list str :=
  match l with
  | [] => []
  | Some x :: l' => x :: dropna l'
  | None :: l' => dropna l'
  end.

(** [s.split(".", n=1)]: the text before the first dot and the text after
    it, if there is a dot. *)
Fixpoint split_dot (s : str) : str * option str :=
  match s with
  | [] => ([], None)
  | c :: rest =>
      if (c =? DOT)%N then ([], Some rest)
      else let (a, b) := split_dot rest in (c :: a, b)
  end.

Section Pipeline.
Context {U : UnicodeData}.

(* ---------------------------------------------------------------- *)
(** *** renomear colunas em pares (Mes.Hibrido / Mes.Zebu) *)

(** The body of [for i in range(0, len(mes_cols), 2)]. *)
Fixpoint pares (mes_cols : list pyobj) : list pyobj :=
  match mes_cols with
  | [] => []
  | c :: rest =>
      let mes_canon := canonical_month c in
      PyStr (mes_canon ++ py ".Hibrido") :: PyStr (mes_canon ++ py ".Zebu")
      :: match rest with
         | [] => []
         | _ :: rest' => pares rest'
         end
  end.

Definition novos_nomes (indicador_col : pyobj) (mes_cols : list pyobj)
  : list pyobj :=
  [indicador_col] ++ pares mes_cols.

(** Lines 52-64.  The assignment [df.columns = novos_nomes] raises
    [ValueError] when the number of names is not the number of columns. *)
Definition renomear (df : DataFrame) : script DataFrame :=
  let orig := columns df in
  match orig with
  | [] => raise IndexError
  | indicador_col :: resto =>
      mes_cols <- (if Nat.odd (length resto)
                   then st_warning warning_colunas_impar ;;; ret (removelast resto)
                   else ret resto) ;;
      let nomes := novos_nomes indicador_col mes_cols in
      if Nat.eqb (length nomes) (length orig)
      then ret {| columns := nomes; rows := rows df |}
      else raise ValueError
  end.

(* ---------------------------------------------------------------- *)
(** *** converter para formato longo *)

(** The rows that [df.melt(id_vars, var_name="Mes_Raca",
    value_name="Valor")] returns: column by column, the rows in their
    order.  ([df_long] below has the case in which it raises.) *)
Definition melt (df : DataFrame) : list (option str * pyobj * option Q) :=
  flat_map
    (fun jc : nat * pyobj =>
       map (fun r => (indicador r, snd jc, nth (fst jc) (valores r) None))
           (rows df))
    (combine (seq 0 (length (tl (columns df)))) (tl (columns df))).

(** [.str.split(".", n=1, expand=True)] on one label: a label that is not
    text gives blanks. *)
Definition split_label (c : pyobj) : option str * option str :=
  match c with
  | PyStr s => let (a, b) := split_dot s in (Some a, b)
  | PyOther _ => (None, None)
  end.

(** Number of columns of the expanded split. *)
Definition split_width (l : list (option str * option str)) : nat :=
  fold_right
    (fun p w => Nat.max w (match p with
                           | (Some _, Some _) => 2
                           | (Some _, None) => 1
                           | (None, _) => 0
                           end)) 0 l.

(** One row of the melted frame with its two new columns. *)
Definition linha_longa (t : option str * pyobj * option Q) : Longo :=
  let p := split_label (snd (fst t)) in
  {| lg_indicador := fst (fst t);
     lg_Mes_nome := fst p;
     lg_Raca := snd p;
     lg_Valor := snd t |}.

(** The header of the identifier column is the text [nome]. *)
Definition header_is (c : pyobj) (nome : str) : bool :=
  match c with
  | PyStr s => str_eqb s nome
  | PyOther _ => false
  end.

(** [indicador_col] of a frame whose columns were renamed. *)
Definition indicador_col_de (df : DataFrame) : pyobj :=
  hd (PyOther []) (columns df).

(** [df.melt] refuses a frame that has a column named as [value_name]:
    it raises [ValueError].  The renamed month columns have a dot in their
    names, so only the identifier column can be named [Valor]. *)
Definition melt_recusa (df : DataFrame) : bool :=
  header_is (indicador_col_de df) (py "Valor").

(** The assignment of line 69 writes the columns [Mes_nome] and [Raca]:
    an identifier column that has one of these two names is overwritten,
    and is then read as the month or as the breed. *)
Definition sobrescrever (indicador_col : pyobj) (r : Longo) : Longo :=
  if header_is indicador_col (py "Mes_nome")
  then {| lg_indicador := lg_Mes_nome r; lg_Mes_nome := lg_Mes_nome r;
          lg_Raca := lg_Raca r; lg_Valor := lg_Valor r |}
  else if header_is indicador_col (py "Raca")
  then {| lg_indicador := lg_Raca r; lg_Mes_nome := lg_Mes_nome r;
          lg_Raca := lg_Raca r; lg_Valor := lg_Valor r |}
  else r.

(** Lines 67-70.  [df.melt] raises [ValueError] when the identifier column
    is named [Valor]; assigning the split to the two columns [Mes_nome]
    and [Raca] raises [ValueError] when the split does not have two
    columns.  An identifier column named [Mes_Raca], or named as one of
    the renamed month columns, is not modelled. *)
Definition df_long (df : DataFrame) : script (list Longo) :=
  if melt_recusa df then raise ValueError
  else
    let m := melt df in
    let partes := map (fun t => split_label (snd (fst t))) m in
    if Nat.eqb (split_width partes) 2
    then ret (map (sobrescrever (indicador_col_de df)) (map linha_longa m))
    else raise ValueError.

(** manter apenas Zebu e Hibrido *)
Definition manter (r : Longo) : list Registro :=
  match lg_Mes_nome r, lg_Raca r with
  | Some m, Some b =>
      if str_in b [Zebu; Hibrido]
      then [ {| Indicador := lg_indicador r; Mes_nome := m; Raca := b;
                Valor := lg_Valor r |} ]
      else []
  | _, _ => []
  end.

Definition df_final (long : list Longo) : list Registro := flat_map manter long.

(* ---------------------------------------------------------------- *)
(** *** ordem natural dos meses, filtros *)

Definition meses_disponiveis (final : list Registro) : list str :=
  filter (fun m => str_in m (unique [] (map Mes_nome final))) ordem_meses.

Definition indicadores (final : list Registro) : list str :=
  sorted (unique [] (dropna (map Indicador final))).

(** What the three [st.multiselect] show, and the default of the first. *)
Record Filtros := {
  f_final : list Registro;
  f_indicadores : list str;
  f_default : list str;
  f_meses : list str;
  f_racas : list str
}.

(** Lines 52-93, up to the widgets. *)
Definition preparar (df : DataFrame) : script Filtros :=
  df' <- renomear df ;;
  long <- df_long df' ;;
  let final := df_final long in
  let disp := meses_disponiveis final in
  let inds := indicadores final in
  match inds with
  | i0 :: i1 :: _ =>
      ret {| f_final := final; f_indicadores := inds; f_default := [i0; i1];
             f_meses := disp; f_racas := racas |}
  | _ => raise IndexError
  end.

(* ---------------------------------------------------------------- *)
(** *** montar tabela com N indicadores *)

Definition df_ind (final : list Registro) (meses_escolhidos racas_escolhidas : list str)
  (ind : str) : list (str * str * option Q) :=
  map (fun r => (Mes_nome r, Raca r, Valor r))
      (filter (fun r =>
                 match Indicador r with
                 | Some i => str_eqb i ind
                 | None => false
                 end
                 && str_in (Mes_nome r) meses_escolhidos
                 && str_in (Raca r) racas_escolhidas)
              final).

Definition same_key (a b : str * str) : bool :=
  str_eqb (fst a) (fst b) && str_eqb (snd a) (snd b).

Definition chave {V : Type} (l : Linha V) : str * str := (l_Mes_nome l, l_Raca l).

(** [pd.merge(left, right, on=["Mes_nome","Raca"], how="outer")]: a row of
    the left frame is joined with every row of the right frame that has
    its key, or with a blank; the rows of the right frame whose key the
    left frame lacks follow, with blanks on the left.  The order of the
    rows of different keys is left to [sort_values] below. *)
Definition merge_outer (left : Tabela Q) (ind : str)
  (right : list (str * str * option Q)) : Tabela Q :=
  {| valor_cols := valor_cols left ++ [ind];
     linhas :=
       flat_map
         (fun l =>
            match filter (fun r => same_key (chave l) (fst r)) right with
            | [] => [ {| l_Mes_nome := l_Mes_nome l; l_Raca := l_Raca l;
                         l_Valor := l_Valor l ++ [None] |} ]
            | ms => map (fun r => {| l_Mes_nome := l_Mes_nome l;
                                     l_Raca := l_Raca l;
                                     l_Valor := l_Valor l ++ [snd r] |}) ms
            end)
         (linhas left)
       ++ map (fun r => {| l_Mes_nome := fst (fst r); l_Raca := snd (fst r);
                           l_Valor := repeat None (length (valor_cols left))
                                      ++ [snd r] |})
              (filter (fun r => negb (existsb (fun l => same_key (chave l) (fst r))
                                              (linhas left)))
                      right) |}.

(** One turn of [for ind in indicadores_selec]. *)
Definition passo (final : list Registro) (meses_escolhidos racas_escolhidas : list str)
  (df_merge : option (Tabela Q)) (ind : str) : option (Tabela Q) :=
  let d := df_ind final meses_escolhidos racas_escolhidas ind in
  match df_merge with
  | None =>
      Some {| valor_cols := [ind];
              linhas := map (fun r => {| l_Mes_nome := fst (fst r);
                                         l_Raca := snd (fst r);
                                         l_Valor := [snd r] |}) d |}
  | Some m => Some (merge_outer m ind d)
  end.

Definition df_merge (final : list Registro)
  (indicadores_selec meses_escolhidos racas_escolhidas : list str)
  : option (Tabela Q) :=
  fold_left (passo final meses_escolhidos racas_escolhidas) indicadores_selec None.

(* ---------------------------------------------------------------- *)
(** *** ordenar *)

(** The code of a month in [pd.Categorical(..., categories=meses_escolhidos)]:
    its position in the categories; a value that is no category is NaN. *)
Fixpoint codigo (categories : list str) (m : str) : option nat :=
  match categories with
  | [] => None
  | c :: cs => if str_eqb c m then Some 0
               else option_map S (codigo cs m)
  end.

Fixpoint categorias_unicas (l : list str) : bool :=
  match l with
  | [] => true
  | x :: l' => negb (str_in x l') && categorias_unicas l'
  end.

(** Order of the codes, NaN last. *)
Definition codigo_ltb (a b : option nat) : bool :=
  match a, b with
  | Some x, Some y => Nat.ltb x y
  | Some _, None => true
  | None, _ => false
  end.

Definition codigo_eqb (a b : option nat) : bool :=
  match a, b with
  | Some x, Some y => Nat.eqb x y
  | None, None => true
  | _, _ => false
  end.

(** Row [a] may stand before row [b] in [sort_values(["Mes_nome","Raca"])]. *)
Definition linha_leb {V : Type} (categories : list str) (a b : Linha V) : bool :=
  let ca := codigo categories (l_Mes_nome a) in
  let cb := codigo categories (l_Mes_nome b) in
  codigo_ltb ca cb || (codigo_eqb ca cb && str_leb (l_Raca a) (l_Raca b)).

(** A stable sort: a row goes behind the rows that may stand before it. *)
Fixpoint inserir {V : Type} (categories : list str) (x : Linha V)
  (l : list (Linha V)) : list (Linha V) :=
  match l with
  | [] => [x]
  | y :: l' => if linha_leb categories y x then y :: inserir categories x l'
               else x :: l
  end.

Definition sort_values {V : Type} (categories : list str) (l : list (Linha V))
  : list (Linha V) :=
  fold_left (fun acc x => inserir categories x acc) l [].

(* ---------------------------------------------------------------- *)
(** *** arredondar valores e garantir 2 casas decimais *)

(** A float with two decimals, as [round(x, 2)] returns it: its sign (the
    sign of [x], also when the digits are all zero) and its hundredths. *)
Record Dec2 := {
  negativo : bool;
  centesimos : N
}.

(** The integer nearest to [n / d], a tie going to the even one. *)
Definition round_half_even (n : Z) (d : positive) : Z :=
  let f := (n / Zpos d)%Z in
  let r := (n mod Zpos d)%Z in
  match (2 * r ?= Zpos d)%Z with
  | Lt => f
  | Gt => (f + 1)%Z
  | Eq => if Z.even f then f else (f + 1)%Z
  end.

(** [round(x, 2)]. *)
Definition round2 (x : Q) : Dec2 :=
  {| negativo := (Qnum x <? 0)%Z;
     centesimos := Z.abs_N (round_half_even (Qnum x * 100) (Qden x)) |}.

(** [df_show[col].apply(lambda x: round(x, 2) if pd.notnull(x) else x)] *)
Definition arredondar (x : option Q) : option Dec2 := option_map round2 x.

Definition df_show (m : Tabela Q) (meses_escolhidos : list str) : Tabela Dec2 :=
  {| valor_cols := valor_cols m;
     linhas := map (fun l => {| l_Mes_nome := l_Mes_nome l; l_Raca := l_Raca l;
                                l_Valor := map arredondar (l_Valor l) |})
                   (sort_values meses_escolhidos (linhas m)) |}.

(** Decimal digits. *)
Fixpoint uint_digits (d : Decimal.uint) : str :=
  match d with
  | Decimal.Nil => []
  | Decimal.D0 d => 48%N :: uint_digits d
  | Decimal.D1 d => 49%N :: uint_digits d
  | Decimal.D2 d => 50%N :: uint_digits d
  | Decimal.D3 d => 51%N :: uint_digits d
  | Decimal.D4 d => 52%N :: uint_digits d
  | Decimal.D5 d => 53%N :: uint_digits d
  | Decimal.D6 d => 54%N :: uint_digits d
  | Decimal.D7 d => 55%N :: uint_digits d
  | Decimal.D8 d => 56%N :: uint_digits d
  | Decimal.D9 d => 57%N :: uint_digits d
  end.

Definition digits (n : N) : str := uint_digits (N.to_uint n).

(** ["{:.2f}".format(x)]: the formatter of [format_dict], which the styler
    calls on every cell of a numeric column, a blank one (NaN) too. *)
Definition format_2f (x : option Dec2) : str :=
  match x with
  | None => py "nan"
  | Some d =>
      (if negativo d then py "-" else [])
      ++ digits (centesimos d / 100)
      ++ [DOT; (48 + (centesimos d mod 100) / 10)%N;
               (48 + (centesimos d mod 100) mod 10)%N]
  end.

(** The cells of the value columns of [html_table], row by row. *)
Definition html_table (show : Tabela Dec2) : list (str * str * list str) :=
  map (fun l => (l_Mes_nome l, l_Raca l, map format_2f (l_Valor l))) (linhas show).

(** [df_show[["Mes_nome","Raca",f"Valor_{ind}"]]] for the column at
    position [i]. *)
Definition coluna (show : Tabela Dec2) (i : nat) : list (str * str * option Dec2) :=
  map (fun l => (l_Mes_nome l, l_Raca l, nth i (l_Valor l) None)) (linhas show).

(** What one run shows: the table, its cells as text, and the data of the
    line and of the bars of the chart. *)
Record Tela := {
  t_show : Tabela Dec2;
  t_html : list (str * str * list str);
  t_line : list (str * str * option Dec2);
  t_bar : list (str * str * option Dec2)
}.

(** Lines 95-196, after the widgets returned the three selections. *)
Definition montar (f : Filtros)
  (indicadores_selec meses_escolhidos racas_escolhidas : list str) : script Tela :=
  (if Nat.ltb (length indicadores_selec) 2
   then st_warning warning_dois_indicadores ;;; st_stop
   else ret tt) ;;;
  let merged := df_merge (f_final f) indicadores_selec meses_escolhidos
                         racas_escolhidas in
  m <- match merged with
       | None => st_warning warning_nenhum_dado ;;; st_stop
       | Some m => match linhas m with
                   | [] => st_warning warning_nenhum_dado ;;; st_stop
                   | _ :: _ => ret m
                   end
       end ;;
  (if categorias_unicas meses_escolhidos then ret tt else raise ValueError) ;;;
  let show := df_show m meses_escolhidos in
  ret {| t_show := show; t_html := html_table show;
         t_line := coluna show 0; t_bar := coluna show 1 |}.

(** The whole run: the sheet, and what the user picks in the widgets once
    they are shown. *)
Definition app (df : DataFrame)
  (escolha : Filtros -> list str * list str * list str) : script Tela :=
  f <- preparar df ;;
  let '(indicadores_selec, meses_escolhidos, racas_escolhidas) := escolha f in
  montar f indicadores_selec meses_escolhidos racas_escolhidas.

End Pipeline.

(* ================================================================== *)
(** ** What the tables are assumed to say

    White space has no case: it maps to itself, is neither cased nor
    case-ignorable, and no letter [a]..[z] nor the capital sigma is white
    space. *)

Class UnicodeLaws (U : UnicodeData) : Prop := {
  space_lower : forall c, isspace c = true -> tolower_full c = [c];
  space_not_cased : forall c, isspace c = true -> is_cased c = false;
  space_not_ignorable : forall c, isspace c = true -> is_case_ignorable c = false;
  sigma_not_space : isspace CAPITAL_SIGMA = false;
  letters_not_space : forall c, (0x61 <= c <= 0x7A)%N -> isspace c = false
}.

(* ================================================================== *)
(** ** Definitions that follow the prose of the specification *)

Section SpecSide.
Context {U : UnicodeData}.

(** The lookup key as the description of the normaliser words it: the
    first three characters of the accent-stripped, lower-cased name. *)
Definition spec_month_key (name : str) : str :=
  firstn 3 (lower (_strip_accents name)).

(** The normaliser that looks up [spec_month_key]. *)
Definition spec_canonical_month (name : str) : str :=
  dict_get mapa (spec_month_key name) name.

(** The cells of one row of the sheet, read by the layout of the sheet:
    month blocks of two columns, the hybrid value first, the month named by
    the header of the first column of the block. *)
Fixpoint celulas (mes_cols : list pyobj) (vals : list (option Q))
  : list (str * str * option Q) :=
  match mes_cols, vals with
  | c :: _ :: mes_cols', h :: z :: vals' =>
      (canonical_month c, Hibrido, h) :: (canonical_month c, Zebu, z)
      :: celulas mes_cols' vals'
  | _, _ => []
  end.

(** The triples [(Month, Breed, Value)] of the sheet for one indicator,
    blank cells included. *)
Definition wide_cells (df : DataFrame) (ind : str) : list (str * str * option Q) :=
  flat_map (fun r => match indicador r with
                     | Some i => if str_eqb i ind
                                 then celulas (tl (columns df)) (valores r)
                                 else []
                     | None => []
                     end)
           (rows df).

(** The first header of every block of two. *)
Fixpoint primeiros (mes_cols : list pyobj) : list pyobj :=
  match mes_cols with
  | c :: _ :: mes_cols' => c :: primeiros mes_cols'
  | _ => []
  end.

(** The distinct indicator names of the sheet. *)
Definition nomes_indicadores (df : DataFrame) : list str :=
  unique [] (dropna (map indicador (rows df))).

(** Two column labels are the same text. *)
Definition pyobj_eqb (a b : pyobj) : bool :=
  match a, b with
  | PyStr x, PyStr y => str_eqb x y
  | _, _ => false
  end.

(** The header of the identifier column is none of the column names that
    the script itself uses ([Mes_Raca], [Valor], [Mes_nome], [Raca]) and
    none of the names it gives to the month columns. *)
Definition cabecalho_livre (df : DataFrame) : bool :=
  match columns df with
  | [] => true
  | c :: mes_cols =>
      negb (header_is c (py "Mes_Raca")) && negb (header_is c (py "Valor"))
      && negb (header_is c (py "Mes_nome")) && negb (header_is c (py "Raca"))
      && negb (existsb (pyobj_eqb c) (pares mes_cols))
  end.

(** A sheet of the layout of the input: an identifier column, whose header
    is free, and at least one block, blocks of two columns, headers in
    which the month is recognised, one cell for each column in every
    row. *)
Definition bem_formada (df : DataFrame) : bool :=
  retangular df
  && cabecalho_livre df
  && Nat.leb 2 (length (tl (columns df)))
  && Nat.even (length (tl (columns df)))
  && forallb (fun c => str_in (canonical_month c) ordem_meses)
             (primeiros (tl (columns df))).

(** The user keeps every option of the three widgets. *)
Definition tudo (f : Filtros) : list str * list str * list str :=
  (f_indicadores f, f_meses f, f_racas f).

End SpecSide.

(* ================================================================== *)
(** ** Sample sheets *)

Module Exemplos.
Import Latin.

Definition s (t : String.string) : pyobj := PyStr (py t).

Arguments s t%_string_scope.

(** The row of the example, and a second indicator beside it. *)
Definition ganho : DataFrame :=
  {| columns := [s "Indicador"; s "Jan_Hib"; s "Jan_Zeb"];
     rows := [ {| indicador := Some (py "Ganho de Peso");
                  valores := [Some (10456 # 1000)%Q; Some (20111 # 1000)%Q] |};
               {| indicador := Some (py "Consumo");
                  valores := [Some (3 # 1)%Q; None] |} ] |}.

(** Two months, a blank cell for each indicator. *)
Definition dois_meses : DataFrame :=
  {| columns := [s "Indicador"; s "JANEIRO"; s "x"; s "fev/25"; s "y"];
     rows := [ {| indicador := Some (py "Peso");
                  valores := [Some (7 # 2)%Q; Some (4 # 1)%Q; None; Some (-1 # 1000)%Q] |};
               {| indicador := Some (py "Consumo");
                  valores := [Some (1 # 3)%Q; None; Some (5 # 2)%Q; Some (1005 # 1000)%Q] |} ] |}.

(** Three month columns: the last block lacks its second column. *)
Definition impar : DataFrame :=
  {| columns := [s "Indicador"; s "Jan_Hib"; s "Jan_Zeb"; s "Fev_Hib"];
     rows := [ {| indicador := Some (py "Peso");
                  valores := [Some (1 # 1)%Q; Some (2 # 1)%Q; Some (3 # 1)%Q] |} ] |}.

(** A sheet with one indicator only. *)
Definition um_indicador : DataFrame :=
  {| columns := [s "Indicador"; s "Jan_Hib"; s "Jan_Zeb"];
     rows := [ {| indicador := Some (py "Peso");
                  valores := [Some (1 # 1)%Q; Some (2 # 1)%Q] |} ] |}.

(** A sheet that has the identifier column only. *)
Definition so_indicador : DataFrame :=
  {| columns := [s "Indicador"];
     rows := [ {| indicador := Some (py "Peso"); valores := [] |} ] |}.

(** A sheet with one indicator whose identifier column is headed [Raca]. *)
Definition cabecalho_raca : DataFrame :=
  {| columns := [s "Raca"; s "Jan_Hib"; s "Jan_Zeb"];
     rows := [ {| indicador := Some (py "Peso");
                  valores := [Some (1 # 1)%Q; Some (2 # 1)%Q] |} ] |}.

(** A sheet whose identifier column is headed [Valor]. *)
Definition cabecalho_valor : DataFrame :=
  {| columns := [s "Valor"; s "Jan_Hib"; s "Jan_Zeb"];
     rows := [ {| indicador := Some (py "Peso");
                  valores := [Some (1 # 1)%Q; Some (2 # 1)%Q] |};
               {| indicador := Some (py "Consumo");
                  valores := [Some (3 # 1)%Q; Some (4 # 1)%Q] |} ] |}.

Definition sem_filtros : Filtros :=
  {| f_final := []; f_indicadores := []; f_default := []; f_meses := [];
     f_racas := [] |}.

(** What the widgets show for [dois_meses]. *)
Definition filtros_dois_meses : Filtros :=
  Eval vm_compute in
    match run (preparar dois_meses) with
    | (Returned f, _) => f
    | _ => sem_filtros
    end.

Definition Peso : str := py "Peso".
Definition Consumo : str := py "Consumo".
Definition Janeiro : str := py "Janeiro".
Definition Fevereiro : str := py "Fevereiro".

End Exemplos.

(* ================================================================== *)
(** ** The invariant of the merge loop

    [D ind] stands for the filtered records [df_ind] of indicator [ind]. *)

(** Every record of the indicator has a row with its key and its value in
    column [i]. *)
Definition coluna_completa (D : list (str * str * option Q)) (i : nat)
  (ls : list (Linha Q)) : Prop :=
  forall k v, In (k, v) D ->
    exists l, In l ls /\ chave l = k /\ nth_error (l_Valor l) i = Some v.

(** Column [i] of a row holds a value that the indicator has at the key of
    the row, or a blank when it has none there. *)
Definition coluna_correta (D : list (str * str * option Q)) (i : nat)
  (ls : list (Linha Q)) : Prop :=
  forall l w, In l ls -> nth_error (l_Valor l) i = Some w ->
    In (chave l, w) D \/ (w = None /\ forall w', ~ In (chave l, w') D).

Definition pivot_inv (D : str -> list (str * str * option Q)) (t : Tabela Q) : Prop :=
  (forall l, In l (linhas t) -> length (l_Valor l) = length (valor_cols t))
  /\ (forall l, In l (linhas t) ->
        exists ind w, In ind (valor_cols t) /\ In (chave l, w) (D ind))
  /\ (forall i ind, nth_error (valor_cols t) i = Some ind ->
        coluna_completa (D ind) i (linhas t)
        /\ coluna_correta (D ind) i (linhas t)).

(** Row [a] stands before row [b] by the order of the result: the month of
    [a] comes earlier in the chosen months, or it is the same month and the
    breed of [a] is not after the breed of [b] in the order of strings. *)
Definition antes (meses_escolhidos : list str) {V : Type} (a b : Linha V) : Prop :=
  exists ia ib,
    nth_error meses_escolhidos ia = Some (l_Mes_nome a)
    /\ nth_error meses_escolhidos ib = Some (l_Mes_nome b)
    /\ (ia < ib \/ (ia = ib /\ str_ltb (l_Raca b) (l_Raca a) = false)).

(** The record that a cell of the sheet becomes. *)
Definition registro_de (ind : option str) (c : str * str * option Q) : Registro :=
  {| Indicador := ind; Mes_nome := fst (fst c); Raca := snd (fst c);
     Valor := snd c |}.

(* ================================================================== *)
(** ** ler planilha: the blank rows and columns (lines 46-49)

    The sheet as [read_excel] returns it: a cell holds text, a number, or
    nothing. *)

Inductive celula :=
| Texto (s : str)
| Numero (q : Q).

Record Planilha := {
  cabecalho : list pyobj;
  corpo : list (list (option celula))
}.

Definition vazia (c : option celula) : bool :=
  match c with
  | None => true
  | Some _ => false
  end.

(** Every row has one cell for each header. *)
Definition planilha_retangular (p : Planilha) : bool :=
  forallb (fun r => Nat.eqb (length r) (length (cabecalho p))) (corpo p).

(** [df.dropna(how="all", inplace=True)]: a row goes when all its cells
    are blank. *)
Definition dropna_linhas (p : Planilha) : Planilha :=
  {| cabecalho := cabecalho p;
     corpo := filter (fun r => negb (forallb vazia r)) (corpo p) |}.

(** Column [j] has a cell that is not blank. *)
Definition coluna_viva (linhas : list (list (option celula))) (j : nat) : bool :=
  existsb (fun r => negb (vazia (nth j r None))) linhas.

(** The entries of [l] at the positions [js]. *)
Definition escolher {A : Type} (js : list nat) (l : list A) : list A :=
  flat_map (fun j => match nth_error l j with
                     | Some x => [x]
                     | None => []
                     end) js.

(** [df.dropna(axis=1, how="all", inplace=True)]: a column goes when all
    its cells are blank. *)
Definition dropna_colunas (p : Planilha) : Planilha :=
  let vivas := filter (coluna_viva (corpo p)) (seq 0 (length (cabecalho p))) in
  {| cabecalho := escolher vivas (cabecalho p);
     corpo := map (escolher vivas) (corpo p) |}.

(** Lines 47-49; [reset_index(drop=True)] numbers the rows anew, which a
    list does by itself. *)
Definition carregar (p : Planilha) : Planilha :=
  dropna_colunas (dropna_linhas p).

(** The frame of a sheet whose first column holds text and whose other
    columns hold numbers. *)
Fixpoint tipar_valores (l : list (option celula)) : option (list (option Q)) :=
  match l with
  | [] => Some []
  | None :: l' => option_map (cons None) (tipar_valores l')
  | Some (Numero q) :: l' => option_map (cons (Some q)) (tipar_valores l')
  | Some (Texto _) :: _ => None
  end.

Definition tipar_linha (r : list (option celula)) : option Row :=
  match r with
  | [] => None
  | None :: l => option_map (fun v => {| indicador := None; valores := v |})
                            (tipar_valores l)
  | Some (Texto s) :: l =>
      option_map (fun v => {| indicador := Some s; valores := v |})
                 (tipar_valores l)
  | Some (Numero _) :: _ => None
  end.

Fixpoint tipar_linhas (l : list (list (option celula))) : option (list Row) :=
  match l with
  | [] => Some []
  | r :: l' => match tipar_linha r, tipar_linhas l' with
               | Some r', Some rs => Some (r' :: rs)
               | _, _ => None
               end
  end.

Definition tipar (p : Planilha) : option DataFrame :=
  option_map (fun rs => {| columns := cabecalho p; rows := rs |})
             (tipar_linhas (corpo p)).

(* ================================================================== *)
(** ** Tabela comparativa: the colour of a row (lines 126-132) *)

(** One style for each entry of the row: its month, its breed and its
    values. *)
Definition color_row_by_race {V : Type} (row : Linha V) : list str :=
  let n := 2 + length (l_Valor row) in
  if str_eqb (l_Raca row) (py "Zebu")
  then repeat (py "background-color: #e6f2ff;") n
  else if str_eqb (l_Raca row) (py "Hibrido")
  then repeat (py "background-color: #fff2e6;") n
  else repeat (@nil codepoint) n.

(* ================================================================== *)
(** ** Measures used to state the properties *)

(** The letters [A]..[Z] and [a]..[z]. *)
Definition letras_ascii : list codepoint :=
  map N.of_nat (seq 65 26) ++ map N.of_nat (seq 97 26).

(** [c.lower()] for an ASCII letter. *)
Definition minuscula_ascii (c : codepoint) : codepoint :=
  if (c <=? 0x5A)%N then (c + 32)%N else c.

(** The ASCII letters are plain in the tables: no decomposition, no
    combining class, no mark, no white space, and the lower case that
    ASCII gives them. *)
Definition ascii_simples (U : UnicodeData) : Prop :=
  Forall (fun c => decomposition c = [c] /\ combining c = 0%N
                   /\ category_Mn c = false /\ isspace c = false
                   /\ tolower_full c = [minuscula_ascii c])
         letras_ascii.

(** The hundredths of a rounded value, with their sign. *)
Definition Dec2_to_Z (d : Dec2) : Z :=
  if negativo d then (- Z.of_N (centesimos d))%Z else Z.of_N (centesimos d).

(** Month [a] comes before month [b] in the calendar of [ordem_meses]. *)
Definition calendario_ltb (a b : str) : bool :=
  match codigo ordem_meses a, codigo ordem_meses b with
  | Some i, Some j => Nat.ltb i j
  | _, _ => false
  end.

(** A sheet whose cells are all blank. *)
Definition exemplo_em_branco : Planilha :=
  {| cabecalho := [PyStr (py "Indicador"); PyStr (py "Jan_Hib"); PyStr (py "Jan_Zeb")];
     corpo := [ [None; None; None]; [None; None; None] ] |}.

(** A sheet with a blank row and a blank column. *)
Definition exemplo_com_brancos : Planilha :=
  {| cabecalho := [PyStr (py "Indicador"); PyStr (py "Jan_Hib");
                   PyStr (py "Obs"); PyStr (py "Jan_Zeb")];
     corpo := [ [Some (Texto (py "Peso")); Some (Numero (1 # 1)%Q); None;
                 Some (Numero (2 # 1)%Q)];
                [None; None; None; None];
                [Some (Texto (py "Consumo")); None; None;
                 Some (Numero (3 # 1)%Q)] ] |}.

(* ================================================================== *)
(** ** Facts on strings *)

Lemma str_eqb_eq (a b : str) : str_eqb a b = true <-> a = b.
Proof.
  revert b; induction a as [|x a IH]; intros [|y b]; simpl; split;
    try discriminate; try reflexivity.
  - intros H. apply andb_true_iff in H as [Hx Hab].
    apply N.eqb_eq in Hx. apply IH in Hab. now subst.
  - intros H. injection H as -> ->.
    rewrite N.eqb_refl. simpl. now apply IH.
Qed.

Lemma str_eqb_refl (a : str) : str_eqb a a = true.
Proof. now apply str_eqb_eq. Qed.

Lemma str_eqb_neq (a b : str) : str_eqb a b = false <-> a <> b.
Proof.
  rewrite <- str_eqb_eq. destruct (str_eqb a b); split; congruence.
Qed.

Lemma str_in_In (x : str) (l : list str) : str_in x l = true <-> In x l.
Proof.
  unfold str_in. rewrite existsb_exists. split.
  - intros [y [Hy E]]. apply str_eqb_eq in E. now subst.
  - intros H. exists x. split; [assumption | apply str_eqb_refl].
Qed.

Lemma dict_get_absent (d : list (str * str)) (key default : str) :
  ~ In key (map fst d) -> dict_get d key default = default.
Proof.
  induction d as [|[k v] d IH]; simpl; intros H; [reflexivity|].
  destruct (str_eqb k key) eqn:E.
  - apply str_eqb_eq in E. exfalso. apply H. now left.
  - apply IH. intros Hin. apply H. now right.
Qed.

Lemma dict_get_present (d : list (str * str)) (key default : str) :
  In key (map fst d) ->
  exists v, In (key, v) d /\ forall dflt, dict_get d key dflt = v.
Proof.
  induction d as [|[k v] d IH]; simpl; intros H; [contradiction|].
  destruct (str_eqb k key) eqn:E.
  - apply str_eqb_eq in E. subst. exists v. split; [now left | reflexivity].
  - destruct H as [H|H]; [apply str_eqb_neq in E; contradiction|].
    destruct (IH H) as [w [Hw Hget]]. exists w. split; [now right | exact Hget].
Qed.
(* ================================================================== *)
(** ** The month normaliser *)

Section NormaliserFacts.
Context {U : UnicodeData} {L : UnicodeLaws U}.

Let is_space (c : codepoint) : Prop := isspace c = true.

Lemma cased_next_spaces (rest w : str) :
  Forall is_space w -> cased_next (rest ++ w) = cased_next rest.
Proof.
  intros Hw. induction rest as [|c rest IH]; simpl.
  - destruct Hw as [|c w Hc _]; [reflexivity|]. simpl.
    now rewrite (space_not_ignorable _ Hc), (space_not_cased _ Hc).
  - now rewrite IH.
Qed.

Lemma space_not_sigma (c : codepoint) :
  is_space c -> (c =? CAPITAL_SIGMA)%N = false.
Proof.
  intros Hc. destruct (N.eqb_spec c CAPITAL_SIGMA) as [->|]; [|reflexivity].
  unfold is_space in Hc. rewrite sigma_not_space in Hc. discriminate.
Qed.

Lemma do_lower_spaces (before w : str) :
  Forall is_space w -> do_lower before w = w.
Proof.
  intros Hw. revert before. induction Hw as [|c w Hc _ IH]; intros before; simpl.
  - reflexivity.
  - unfold lower_char. rewrite (space_not_sigma c Hc), (space_lower _ Hc).
    simpl. now rewrite IH.
Qed.

Lemma do_lower_app_spaces (y w before : str) :
  Forall is_space w -> do_lower before (y ++ w) = do_lower before y ++ w.
Proof.
  intros Hw. revert before. induction y as [|c y IH]; intros before; simpl.
  - now apply do_lower_spaces.
  - rewrite IH, <- app_assoc. f_equal.
    unfold lower_char, final_sigma. now rewrite cased_next_spaces.
Qed.

Lemma lstrip_split (s : str) :
  exists ws, s = ws ++ lstrip s /\ Forall is_space ws.
Proof.
  induction s as [|c s [ws [E F]]]; simpl.
  - exists []. now split.
  - destruct (isspace c) eqn:Hc.
    + exists (c :: ws). split; [simpl; now f_equal | now constructor].
    + exists []. now split.
Qed.

Lemma rstrip_split (s : str) :
  exists ws, s = rstrip s ++ ws /\ Forall is_space ws.
Proof.
  destruct (lstrip_split (rev s)) as [ws [E F]].
  exists (rev ws). split.
  - unfold rstrip. rewrite <- rev_app_distr, <- E. now rewrite rev_involutive.
  - now apply Forall_rev.
Qed.

Lemma firstn_app_spaces (n : nat) (a w k : str) :
  firstn n (a ++ w) = k ->
  Forall is_space w ->
  Forall (fun c => isspace c = false) k ->
  firstn n a = k.
Proof.
  intros E Hw Hk. rewrite firstn_app in E.
  destruct (n - length a) as [|d] eqn:Hd.
  - simpl in E. now rewrite app_nil_r in E.
  - destruct w as [|c w]; [simpl in E; now rewrite app_nil_r in E|].
    exfalso. simpl in E. subst k.
    apply Forall_app in Hk as [_ Hk].
    apply Forall_inv in Hk. apply Forall_inv in Hw.
    unfold is_space in Hw. congruence.
Qed.

(** Trimming leaves a prefix of three characters without white space as
    it is. *)
Lemma lower_strip_prefix (x k : str) :
  firstn 3 (lower x) = k ->
  length k = 3 ->
  Forall (fun c => isspace c = false) k ->
  firstn 3 (lower (strip x)) = k.
Proof.
  intros E Hlen Hk.
  assert (Hl : lstrip x = x).
  { destruct x as [|c x]; [reflexivity|]. simpl.
    destruct (isspace c) eqn:Hc; [exfalso | reflexivity].
    unfold lower in E. simpl in E. unfold lower_char in E.
    rewrite (space_not_sigma c Hc), (space_lower _ Hc) in E.
    simpl in E. subst k. apply Forall_inv in Hk. congruence. }
  unfold strip. rewrite Hl.
  destruct (rstrip_split x) as [ws [Ex Hws]].
  rewrite Ex in E. unfold lower in *.
  rewrite do_lower_app_spaces in E by assumption.
  now apply firstn_app_spaces with (w := ws).
Qed.

Lemma mapa_keys (k : str) :
  In k (map fst mapa) ->
  length k = 3 /\ Forall (fun c => isspace c = false) k.
Proof.
  intros H. cbv in H.
  repeat (destruct H as [<-|H];
          [split; [reflexivity | repeat constructor; apply letters_not_space; lia]|]).
  contradiction.
Qed.

Lemma month_key_of_spec_key (name k : str) :
  In k (map fst mapa) -> spec_month_key name = k -> month_key name = k.
Proof.
  intros Hk E. destruct (mapa_keys _ Hk) as [Hlen Hsp].
  unfold month_key. now apply lower_strip_prefix.
Qed.

End NormaliserFacts.

Module LatinLaws.
Import Latin.

Lemma space_cases (c : N) : isspace c = true -> In c spaces.
Proof.
  change (isspace c) with (existsb (N.eqb c) spaces).
  intros H. apply existsb_exists in H as [x [Hx E]].
  apply N.eqb_eq in E. now subst.
Qed.

#[export] Instance laws : UnicodeLaws ucd.
Proof.
  split.
  - intros c H. apply space_cases in H. simpl in H.
    repeat (destruct H as [<-|H]; [reflexivity|]). contradiction.
  - intros c H. apply space_cases in H. simpl in H.
    repeat (destruct H as [<-|H]; [reflexivity|]). contradiction.
  - intros c H. apply space_cases in H. simpl in H.
    repeat (destruct H as [<-|H]; [reflexivity|]). contradiction.
  - reflexivity.
  - intros c Hc. destruct (isspace c) eqn:E; [|reflexivity].
    apply space_cases in E. simpl in E.
    repeat (destruct E as [<-|E]; [lia|]). contradiction.
Qed.

End LatinLaws.

(** The three spellings of the example give the same month. *)
Example canonical_month_janeiro :
  let janeiro_acento := py "jan" ++ [0xE9%N] ++ py "iro" in
  canonical_month (U := Latin.ucd) (PyStr (py "JANEIRO")) = py "Janeiro"
  /\ canonical_month (U := Latin.ucd) (PyStr (py "Janeiro ")) = py "Janeiro"
  /\ canonical_month (U := Latin.ucd) (PyStr janeiro_acento) = py "Janeiro".
Proof. repeat split; reflexivity. Qed.

(** C3, as worded, fails on a name that starts with white space: the
    first three characters of the accent-stripped, lower-cased [" janeiro"]
    are [" ja"], which is no key, while the code trims the name and looks
    up ["jan"]. *)
Lemma canonical_month_key_is_trimmed :
  spec_month_key (U := Latin.ucd) (py " janeiro") = py " ja"
  /\ month_key (U := Latin.ucd) (py " janeiro") = py "jan"
  /\ canonical_month (U := Latin.ucd) (PyStr (py " janeiro"))
     <> spec_canonical_month (U := Latin.ucd) (py " janeiro").
Proof. split; [reflexivity | split; [reflexivity | discriminate]]. Qed.

(** C3 (amended): the lookup key is the first three characters of the
    accent-stripped, trimmed and lower-cased name, looked up in the table
    of twelve prefixes; two names whose accent-stripped lower-case prefix
    of three characters is the same key of the table (trimmed or not) are
    both given the month that the table holds for this key. *)
Theorem canonical_month_same_prefix
  (U : UnicodeData) (L : UnicodeLaws U) (a b k : str) :
  In k (map fst mapa) ->
  spec_month_key a = k \/ month_key a = k ->
  spec_month_key b = k \/ month_key b = k ->
  length mapa = 12
  /\ month_key a = firstn 3 (lower (strip (_strip_accents a)))
  /\ canonical_month (PyStr a) = dict_get mapa (month_key a) a
  /\ exists m, In (k, m) mapa
               /\ canonical_month (PyStr a) = m
               /\ canonical_month (PyStr b) = m.
Proof.
  intros Hk Ha Hb.
  assert (Ka : month_key a = k)
    by (destruct Ha; [now apply month_key_of_spec_key | assumption]).
  assert (Kb : month_key b = k)
    by (destruct Hb; [now apply month_key_of_spec_key | assumption]).
  repeat split.
  destruct (dict_get_present mapa k k Hk) as [m [Hm Hget]].
  exists m. unfold canonical_month. rewrite Ka, Kb. now rewrite !Hget.
Qed.

Lemma canonical_month_same_prefix_witness :
  exists m, In (py "jan", m) mapa
            /\ canonical_month (U := Latin.ucd) (PyStr (py "JANEIRO")) = m
            /\ canonical_month (U := Latin.ucd)
                 (PyStr (py "jan" ++ [0xE9%N] ++ py "iro")) = m.
Proof.
  apply (canonical_month_same_prefix Latin.ucd LatinLaws.laws
           (py "JANEIRO") (py "jan" ++ [0xE9%N] ++ py "iro") (py "jan")).
  - left. reflexivity.
  - left. reflexivity.
  - left. reflexivity.
Defined.

(** C4, as worded, fails on the same name: the prefix [" ja"] of the
    accent-stripped, lower-cased [" janeiro"] is no key of the table, and
    the name is not returned unchanged. *)
Lemma canonical_month_leading_space :
  ~ In (spec_month_key (U := Latin.ucd) (py " janeiro")) (map fst mapa)
  /\ canonical_month (U := Latin.ucd) (PyStr (py " janeiro")) = py "Janeiro"
  /\ canonical_month (U := Latin.ucd) (PyStr (py " janeiro")) <> py " janeiro".
Proof.
  split; [|split; [reflexivity | discriminate]].
  cbv. intros H.
  repeat (destruct H as [H|H]; [discriminate|]). exact H.
Qed.

(** C4 (amended): a name whose accent-stripped, trimmed and lower-cased
    prefix of three characters is no key of the table is returned as it
    is; an object that is not a string is returned as its text, whatever
    the text starts with.  [canonical_month] is a total function: no input
    makes it raise. *)
Theorem canonical_month_fail_open (U : UnicodeData) :
  (forall name : str,
      ~ In (month_key name) (map fst mapa) ->
      canonical_month (PyStr name) = name)
  /\ (forall text : str, canonical_month (PyOther text) = text).
Proof.
  split.
  - intros name H. unfold canonical_month. now apply dict_get_absent.
  - reflexivity.
Qed.

Lemma canonical_month_fail_open_witness :
  canonical_month (U := Latin.ucd) (PyStr (py "Total")) = py "Total".
Proof.
  apply (proj1 (canonical_month_fail_open Latin.ucd)).
  cbv. intros H.
  repeat (destruct H as [H|H]; [discriminate|]). exact H.
Defined.

(* ================================================================== *)
(** ** Column pair mapper *)

Lemma pair_induction {A : Type} (P : list A -> Prop) :
  P [] ->
  (forall a, P [a]) ->
  (forall a b l, P l -> P (a :: b :: l)) ->
  forall l, P l.
Proof.
  intros H0 H1 H2 l.
  assert (H : P l /\ forall a, P (a :: l)).
  { induction l as [|x l [IH1 IH2]].
    - split; [exact H0 | exact H1].
    - split; [apply IH2 | intros a; now apply H2]. }
  exact (proj1 H).
Qed.

Section ColumnFacts.
Context {U : UnicodeData}.

Lemma pares_length (mes_cols : list pyobj) :
  length (pares mes_cols)
  = length mes_cols + (if Nat.odd (length mes_cols) then 1 else 0).
Proof.
  induction mes_cols as [| a | a b l IH] using pair_induction.
  - reflexivity.
  - reflexivity.
  - change (pares (a :: b :: l))
      with (PyStr (canonical_month a ++ py ".Hibrido")
            :: PyStr (canonical_month a ++ py ".Zebu") :: pares l).
    change (length (a :: b :: l)) with (S (S (length l))).
    simpl length. rewrite IH.
    replace (Nat.odd (S (S (length l)))) with (Nat.odd (length l)); [lia|].
    now rewrite Nat.odd_succ_succ.
Qed.

Lemma removelast_length {A : Type} (l : list A) :
  length (removelast l) = pred (length l).
Proof.
  induction l as [|a l IH]; [reflexivity|].
  destruct l as [|b l]; [reflexivity|].
  change (removelast (a :: b :: l)) with (a :: removelast (b :: l)).
  simpl length in *. now rewrite IH.
Qed.

(** With blocks of two columns the names are assigned, in the order of the
    blocks, and nothing is shown. *)
Lemma renomear_par (df : DataFrame) (indicador_col : pyobj) (mes_cols : list pyobj) :
  columns df = indicador_col :: mes_cols ->
  Nat.even (length mes_cols) = true ->
  run (renomear df)
  = (Returned {| columns := indicador_col :: pares mes_cols; rows := rows df |}, []).
Proof.
  intros Hc Hev. unfold run, renomear. rewrite Hc.
  assert (Hodd : Nat.odd (length mes_cols) = false)
    by (unfold Nat.odd; now rewrite Hev).
  rewrite Hodd. unfold bind, ret, novos_nomes.
  change ([indicador_col] ++ pares mes_cols) with (indicador_col :: pares mes_cols).
  assert (Hlen : Nat.eqb (length (indicador_col :: pares mes_cols))
                         (length (indicador_col :: mes_cols)) = true).
  { apply Nat.eqb_eq. cbn [length]. rewrite pares_length, Hodd. lia. }
  now rewrite Hlen.
Qed.

(** With an odd number of month columns the warning is shown, the last
    header is left out of the names, and the assignment of one name too
    few raises. *)
Lemma renomear_impar (df : DataFrame) (indicador_col : pyobj) (mes_cols : list pyobj) :
  columns df = indicador_col :: mes_cols ->
  Nat.odd (length mes_cols) = true ->
  run (renomear df) = (Raised ValueError, [warning_colunas_impar]).
Proof.
  intros Hc Hodd. unfold run, renomear. rewrite Hc, Hodd.
  unfold bind, ret, st_warning, raise, novos_nomes.
  change ([indicador_col] ++ pares (removelast mes_cols))
    with (indicador_col :: pares (removelast mes_cols)).
  assert (Hlen : Nat.eqb (length (indicador_col :: pares (removelast mes_cols)))
                         (length (indicador_col :: mes_cols)) = false).
  { apply Nat.eqb_neq. cbn [length]. rewrite pares_length, removelast_length.
    destruct mes_cols as [|c l]; [discriminate|]. cbn [length pred].
    replace (Nat.odd (length l)) with false; [lia|].
    cbn [length] in Hodd. rewrite Nat.odd_succ in Hodd.
    unfold Nat.odd. now rewrite Hodd. }
  now rewrite Hlen.
Qed.

(** The blocks keep their order: the names of the first block, then the
    names of the others. *)
Lemma pares_blocks (mes_cols : list pyobj) :
  Nat.even (length mes_cols) = true ->
  pares mes_cols
  = flat_map (fun c => [PyStr (canonical_month c ++ py ".Hibrido");
                        PyStr (canonical_month c ++ py ".Zebu")])
             (primeiros mes_cols).
Proof.
  induction mes_cols as [| a | a b l IH] using pair_induction; intros Hev.
  - reflexivity.
  - discriminate.
  - change (pares (a :: b :: l))
      with (PyStr (canonical_month a ++ py ".Hibrido")
            :: PyStr (canonical_month a ++ py ".Zebu") :: pares l).
    cbn [primeiros flat_map app]. now rewrite IH.
Qed.

(** The example of the column mapper: two blocks whose first headers are
    read as January and February. *)
Lemma novos_nomes_two_months (Id A_hib A_zeb B_hib B_zeb : pyobj) :
  canonical_month A_hib = py "Janeiro" ->
  canonical_month B_hib = py "Fevereiro" ->
  novos_nomes Id [A_hib; A_zeb; B_hib; B_zeb]
  = [Id; PyStr (py "Janeiro.Hibrido"); PyStr (py "Janeiro.Zebu");
         PyStr (py "Fevereiro.Hibrido"); PyStr (py "Fevereiro.Zebu")].
Proof.
  intros HA HB. unfold novos_nomes. simpl. now rewrite HA, HB.
Qed.

Lemma preparar_impar (df : DataFrame) (indicador_col : pyobj)
  (mes_cols : list pyobj) :
  columns df = indicador_col :: mes_cols ->
  Nat.odd (length mes_cols) = true ->
  run (preparar df) = (Raised ValueError, [warning_colunas_impar]).
Proof.
  intros Hc Hodd.
  pose proof (renomear_impar df indicador_col mes_cols Hc Hodd) as H.
  unfold run, preparar, bind in *. now rewrite H.
Qed.

(** C5: the drop of an odd last column is not carried out on the frame.
    With an odd number of month columns the run shows the warning and then
    ends in the [ValueError] of the assignment of the names, before any
    record is built. *)
Theorem odd_columns_raise (df : DataFrame) (indicador_col : pyobj)
  (mes_cols : list pyobj) :
  columns df = indicador_col :: mes_cols ->
  Nat.odd (length mes_cols) = true ->
  length (novos_nomes indicador_col (removelast mes_cols)) = length mes_cols
  /\ run (preparar df) = (Raised ValueError, [warning_colunas_impar]).
Proof.
  intros Hc Hodd. split.
  - unfold novos_nomes.
    change ([indicador_col] ++ pares (removelast mes_cols))
      with (indicador_col :: pares (removelast mes_cols)).
    cbn [length]. rewrite pares_length, removelast_length.
    destruct mes_cols as [|c l]; [discriminate|]. cbn [length pred].
    replace (Nat.odd (length l)) with false; [lia|].
    cbn [length] in Hodd. rewrite Nat.odd_succ in Hodd.
    unfold Nat.odd. now rewrite Hodd.
  - pose proof (renomear_impar df indicador_col mes_cols Hc Hodd) as H.
    unfold run, preparar, bind in *. now rewrite H.
Qed.

End ColumnFacts.

Lemma odd_columns_raise_witness :
  run (preparar (U := Latin.ucd) Exemplos.impar)
  = (Raised ValueError, [warning_colunas_impar]).
Proof.
  apply (proj2 (odd_columns_raise (U := Latin.ucd) Exemplos.impar
                  (Exemplos.s "Indicador")
                  [Exemplos.s "Jan_Hib"; Exemplos.s "Jan_Zeb"; Exemplos.s "Fev_Hib"]
                  eq_refl eq_refl)).
Defined.

(* ================================================================== *)
(** ** The outer join *)

Lemma same_key_eq (a b : str * str) : same_key a b = true <-> a = b.
Proof.
  destruct a as [a1 a2], b as [b1 b2]. unfold same_key. simpl.
  rewrite andb_true_iff, !str_eqb_eq. split.
  - intros [-> ->]. reflexivity.
  - intros H. injection H as -> ->. now split.
Qed.

Lemma same_key_refl (a : str * str) : same_key a a = true.
Proof. now apply same_key_eq. Qed.

(** The rows of a merge: a row of the left frame with a value of the right
    frame at its key, or with a blank when the right frame has none; or a
    key that only the right frame has. *)
Lemma merge_outer_in (t : Tabela Q) (ind : str)
  (right : list (str * str * option Q)) (l' : Linha Q) :
  In l' (linhas (merge_outer t ind right)) <->
  (exists l, In l (linhas t) /\ chave l' = chave l
     /\ ((exists v, In (chave l, v) right /\ l_Valor l' = l_Valor l ++ [v])
         \/ ((forall v, ~ In (chave l, v) right)
             /\ l_Valor l' = l_Valor l ++ [None])))
  \/ (exists v, In (chave l', v) right
        /\ (forall l, In l (linhas t) -> chave l <> chave l')
        /\ l_Valor l' = repeat None (length (valor_cols t)) ++ [v]).
Proof.
  unfold merge_outer. cbn [linhas]. rewrite in_app_iff, in_flat_map, in_map_iff.
  split.
  - intros [[l [Hl Hin]] | [[[m b] v] [E Hin]]].
    + left. exists l. split; [assumption|].
      destruct (filter (fun r => same_key (chave l) (fst r)) right) as [|r ms] eqn:F.
      * destruct Hin as [<-|[]]. split; [reflexivity|]. right. split; [|reflexivity].
        intros v Hv.
        assert (Hf : In (chave l, v)
                        (filter (fun r => same_key (chave l) (fst r)) right))
          by (apply filter_In; split; [assumption | apply same_key_refl]).
        rewrite F in Hf. exact Hf.
      * apply in_map_iff in Hin as [[k v] [<- Hr]].
        rewrite <- F in Hr. apply filter_In in Hr as [Hr Hk].
        apply same_key_eq in Hk. cbn [fst] in Hk. subst k.
        split; [reflexivity|]. left. exists v. now split.
    + right. subst l'. apply filter_In in Hin as [Hr Hno].
      exists v. cbn. split; [assumption|]. split; [|reflexivity].
      intros l Hl E. apply negb_true_iff in Hno.
      assert (Hex : existsb (fun l0 => same_key (chave l0) (fst (m, b, v))) (linhas t) = true).
      { apply existsb_exists. exists l. split; [assumption|].
        apply same_key_eq. exact E. }
      congruence.
  - intros [[l [Hl [Hk [[v [Hv E]] | [Hno E]]]]] | [v [Hv [Hno E]]]].
    + left. exists l. split; [assumption|].
      assert (Hf : In (chave l, v)
                      (filter (fun r => same_key (chave l) (fst r)) right))
        by (apply filter_In; split; [assumption | apply same_key_refl]).
      destruct (filter (fun r => same_key (chave l) (fst r)) right) as [|r ms];
        [contradiction|].
      apply in_map_iff. exists (chave l, v). split; [|assumption].
      destruct l' as [m b vs]. unfold chave in Hk. cbn in *.
      injection Hk as -> ->. now subst vs.
    + left. exists l. split; [assumption|].
      destruct (filter (fun r => same_key (chave l) (fst r)) right) as [|[k v] ms] eqn:F.
      * left. destruct l' as [m b vs]. unfold chave in Hk. cbn in *.
        injection Hk as -> ->. now subst vs.
      * exfalso.
        assert (Hf : In (k, v) (filter (fun r => same_key (chave l) (fst r)) right))
          by (rewrite F; now left).
        apply filter_In in Hf as [Hr Hs]. apply same_key_eq in Hs. cbn in Hs.
        subst k. now apply (Hno v).
    + right. exists (chave l', v). split.
      * destruct l' as [m b vs]. cbn in *. now subst vs.
      * apply filter_In. split; [assumption|]. apply negb_true_iff.
        destruct (existsb (fun l => same_key (chave l) (fst (chave l', v))) (linhas t)) eqn:Ex;
          [|reflexivity].
        apply existsb_exists in Ex as [l [Hl Hs]]. apply same_key_eq in Hs.
        exfalso. now apply (Hno l Hl).
Qed.

Lemma nth_error_snoc {A : Type} (l : list A) (x : A) :
  nth_error (l ++ [x]) (length l) = Some x.
Proof. rewrite nth_error_app2, Nat.sub_diag by lia. reflexivity. Qed.

Lemma nth_error_snoc_inv {A : Type} (l : list A) (x y : A) (i : nat) :
  length l <= i -> nth_error (l ++ [x]) i = Some y -> i = length l /\ y = x.
Proof.
  intros Hi H. rewrite nth_error_app2 in H by assumption.
  destruct (i - length l) as [|d] eqn:E.
  - cbn in H. injection H as <-. split; [lia | reflexivity].
  - cbn in H. destruct d; discriminate.
Qed.

(** Every row of the left frame is kept by the merge, one value longer. *)
Lemma merge_outer_keeps (t : Tabela Q) (ind : str)
  (right : list (str * str * option Q)) (l : Linha Q) :
  In l (linhas t) ->
  exists l' x, In l' (linhas (merge_outer t ind right))
               /\ chave l' = chave l /\ l_Valor l' = l_Valor l ++ [x].
Proof.
  intros Hl.
  destruct (filter (fun r => same_key (chave l) (fst r)) right) as [|[k v] ms] eqn:F.
  - exists {| l_Mes_nome := l_Mes_nome l; l_Raca := l_Raca l;
              l_Valor := l_Valor l ++ [None] |}, None.
    split; [|split; reflexivity].
    apply merge_outer_in. left. exists l. split; [assumption|].
    split; [reflexivity|]. right. split; [|reflexivity].
    intros v Hv.
    assert (Hf : In (chave l, v)
                    (filter (fun r => same_key (chave l) (fst r)) right))
      by (apply filter_In; split; [assumption | apply same_key_refl]).
    rewrite F in Hf. exact Hf.
  - exists {| l_Mes_nome := l_Mes_nome l; l_Raca := l_Raca l;
              l_Valor := l_Valor l ++ [v] |}, v.
    split; [|split; reflexivity].
    apply merge_outer_in. left. exists l. split; [assumption|].
    split; [reflexivity|]. left. exists v. split; [|reflexivity].
    assert (Hf : In (k, v) (filter (fun r => same_key (chave l) (fst r)) right))
      by (rewrite F; now left).
    apply filter_In in Hf as [Hr Hs]. apply same_key_eq in Hs. cbn in Hs.
    now subst k.
Qed.

Section PivotInvariant.
Variable final : list Registro.
Variables meses_escolhidos racas_escolhidas : list str.

Let D := df_ind final meses_escolhidos racas_escolhidas.

Lemma primeiro_inv (ind : str) :
  pivot_inv D
    {| valor_cols := [ind];
       linhas := map (fun r => {| l_Mes_nome := fst (fst r);
                                  l_Raca := snd (fst r);
                                  l_Valor := [snd r] |}) (D ind) |}.
Proof.
  split; [|split]; cbn [linhas valor_cols].
  - intros l Hl. apply in_map_iff in Hl as [r [<- _]]. reflexivity.
  - intros l Hl. apply in_map_iff in Hl as [[[m b] v] [<- Hr]].
    exists ind, v. split; [now left | exact Hr].
  - intros i ind' Hi.
    assert (i = 0 /\ ind' = ind) as [-> ->].
    { destruct i as [|i]; cbn in Hi; [injection Hi as <-; now split|].
      destruct i; discriminate. }
    split.
    + intros [m b] v Hkv.
      exists {| l_Mes_nome := m; l_Raca := b; l_Valor := [v] |}.
      split; [|split; reflexivity].
      apply in_map_iff. exists (m, b, v). now split.
    + intros l w Hl Hn. apply in_map_iff in Hl as [[[m b] v] [<- Hr]].
      cbn in Hn. injection Hn as <-. left. exact Hr.
Qed.

Lemma merge_inv (t : Tabela Q) (ind : str) :
  pivot_inv D t -> pivot_inv D (merge_outer t ind (D ind)).
Proof.
  intros [Hlen [Hprov Hcols]].
  assert (Hcolunas : valor_cols (merge_outer t ind (D ind)) = valor_cols t ++ [ind])
    by reflexivity.
  split; [|split]; rewrite ?Hcolunas.
  - intros l' Hl'. rewrite length_app. cbn [length].
    apply merge_outer_in in Hl'
      as [[l [Hl [Hk [[v [Hv E]] | [Hno E]]]]] | [v [Hv [Hno E]]]];
      rewrite E, length_app; cbn [length];
      rewrite ?repeat_length, ?(Hlen l Hl); reflexivity.
  - intros l' Hl'.
    apply merge_outer_in in Hl' as [[l [Hl [Hk _]]] | [v [Hv _]]].
    + destruct (Hprov l Hl) as [ind0 [w [Hin Hw]]].
      exists ind0, w. split; [apply in_or_app; now left | now rewrite Hk].
    + exists ind, v. split; [apply in_or_app; right; now left | exact Hv].
  - intros i ind' Hi.
    destruct (Nat.lt_ge_cases i (length (valor_cols t))) as [Hlt | Hge].
    + rewrite nth_error_app1 in Hi by assumption.
      destruct (Hcols i ind' Hi) as [Hc Hs]. split.
      * intros k v Hkv. destruct (Hc k v Hkv) as [l [Hl [Hk Hn]]].
        destruct (merge_outer_keeps t ind (D ind) l Hl) as [l' [x [Hl' [Hk' E]]]].
        exists l'. split; [assumption|]. split; [congruence|].
        rewrite E, nth_error_app1; [assumption|]. rewrite (Hlen l Hl). assumption.
      * intros l' w Hl' Hn.
        apply merge_outer_in in Hl'
          as [[l [Hl [Hk HE]]] | [v [Hv [Hno E]]]].
        -- assert (E : exists x, l_Valor l' = l_Valor l ++ [x]).
           { destruct HE as [[v [_ E]] | [_ E]]; eauto. }
           destruct E as [x E]. rewrite E, nth_error_app1 in Hn
             by (rewrite (Hlen l Hl); assumption).
           rewrite Hk. now apply Hs.
        -- rewrite E, nth_error_app1 in Hn by (rewrite repeat_length; assumption).
           rewrite nth_error_repeat in Hn by assumption. injection Hn as <-.
           right. split; [reflexivity|]. intros w' Hw'.
           destruct (Hc _ _ Hw') as [l [Hl [Hk _]]]. now apply (Hno l Hl).
    + apply nth_error_snoc_inv in Hi as [-> ->]; [|assumption]. split.
      * intros [m b] v Hkv.
        destruct (existsb (fun l => same_key (chave l) (m, b)) (linhas t)) eqn:Ex.
        -- apply existsb_exists in Ex as [l [Hl Hs]]. apply same_key_eq in Hs.
           exists {| l_Mes_nome := m; l_Raca := b; l_Valor := l_Valor l ++ [v] |}.
           split; [|split].
           ++ apply merge_outer_in. left. exists l. split; [assumption|].
              split; [now rewrite Hs|]. left. exists v. rewrite Hs. now split.
           ++ reflexivity.
           ++ cbn [l_Valor]. rewrite <- (Hlen l Hl). apply nth_error_snoc.
        -- exists {| l_Mes_nome := m; l_Raca := b;
                     l_Valor := repeat None (length (valor_cols t)) ++ [v] |}.
           split; [|split].
           ++ apply merge_outer_in. right. exists v. split; [exact Hkv|].
              split; [|reflexivity]. intros l Hl E.
              assert (Hex : existsb (fun l => same_key (chave l) (m, b)) (linhas t) = true).
              { apply existsb_exists. exists l. split; [assumption|].
                now apply same_key_eq. }
              congruence.
           ++ reflexivity.
           ++ cbn [l_Valor].
              rewrite <- (repeat_length (@None Q) (length (valor_cols t))) at 2.
              apply nth_error_snoc.
      * intros l' w Hl' Hn.
        apply merge_outer_in in Hl'
          as [[l [Hl [Hk [[v [Hv E]] | [Hno E]]]]] | [v [Hv [Hno E]]]];
          rewrite E in Hn.
        -- rewrite <- (Hlen l Hl), nth_error_snoc in Hn. injection Hn as <-.
           left. now rewrite Hk.
        -- rewrite <- (Hlen l Hl), nth_error_snoc in Hn. injection Hn as <-.
           right. split; [reflexivity|]. now rewrite Hk.
        -- rewrite <- (repeat_length (@None Q) (length (valor_cols t))) in Hn at 2.
           rewrite nth_error_snoc in Hn. injection Hn as <-. now left.
Qed.

Lemma fold_passo_inv (sel : list str) (t : Tabela Q) :
  pivot_inv D t ->
  exists t', fold_left (passo final meses_escolhidos racas_escolhidas) sel (Some t)
             = Some t'
             /\ valor_cols t' = valor_cols t ++ sel
             /\ pivot_inv D t'.
Proof.
  revert t. induction sel as [|ind sel IH]; intros t Ht.
  - exists t. split; [reflexivity|]. split; [now rewrite app_nil_r | assumption].
  - cbn [fold_left passo].
    destruct (IH (merge_outer t ind (D ind)) (merge_inv t ind Ht)) as [t' [E [Hc Hi]]].
    exists t'. split; [exact E|]. split; [|assumption].
    rewrite Hc. cbn [merge_outer valor_cols]. now rewrite <- app_assoc.
Qed.

(** The loop over a selection that is not empty builds a table whose
    columns are the selection, and the invariant holds of it. *)
Lemma df_merge_inv (ind : str) (sel : list str) :
  exists t, df_merge final (ind :: sel) meses_escolhidos racas_escolhidas = Some t
            /\ valor_cols t = ind :: sel
            /\ pivot_inv D t.
Proof.
  unfold df_merge. cbn [fold_left].
  destruct (fold_passo_inv sel _ (primeiro_inv ind)) as [t [E [Hc Hi]]].
  exists t. split; [exact E|]. split; assumption.
Qed.

End PivotInvariant.

(* ================================================================== *)
(** ** The order of the result *)

Lemma str_ltb_asym (a b : str) : str_ltb a b = true -> str_ltb b a = false.
Proof.
  revert b. induction a as [|x a IH]; intros [|y b]; simpl; try congruence.
  intros H. apply orb_true_iff in H as [H | H].
  - apply N.ltb_lt in H.
    replace (y <? x)%N with false by (symmetry; apply N.ltb_ge; lia).
    replace (y =? x)%N with false by (symmetry; apply N.eqb_neq; lia).
    reflexivity.
  - apply andb_true_iff in H as [E H]. apply N.eqb_eq in E. subst y.
    rewrite N.ltb_irrefl, N.eqb_refl. simpl. now apply IH.
Qed.

Lemma str_ltb_cotrans (c a b : str) :
  str_ltb c a = true -> str_ltb c b = true \/ str_ltb b a = true.
Proof.
  revert a b. induction c as [|z c IH]; intros [|x a] [|y b]; simpl;
    try congruence; auto.
  intros H.
  destruct (N.ltb_spec z y) as [Hzy | Hzy]; [now left|].
  destruct (N.ltb_spec y x) as [Hyx | Hyx]; [now right|].
  apply orb_true_iff in H as [H | H].
  - apply N.ltb_lt in H. lia.
  - apply andb_true_iff in H as [E H]. apply N.eqb_eq in E. subst x.
    assert (y = z) by lia. subst y. rewrite N.eqb_refl. simpl.
    exact (IH a b H).
Qed.

Lemma str_leb_total (a b : str) : str_leb a b = false -> str_leb b a = true.
Proof.
  unfold str_leb. intros H. apply negb_false_iff in H.
  apply negb_true_iff. now apply str_ltb_asym.
Qed.

Lemma str_leb_trans (a b c : str) :
  str_leb a b = true -> str_leb b c = true -> str_leb a c = true.
Proof.
  unfold str_leb. intros Hab Hbc.
  apply negb_true_iff in Hab, Hbc. apply negb_true_iff.
  destruct (str_ltb c a) eqn:E; [|reflexivity].
  destruct (str_ltb_cotrans c a b E); congruence.
Qed.

(** The code of a month is its first position in the categories. *)
Lemma codigo_nth (categories : list str) (m : str) (i : nat) :
  codigo categories m = Some i -> nth_error categories i = Some m.
Proof.
  revert i. induction categories as [|c cs IH]; intros i; simpl; [discriminate|].
  destruct (str_eqb c m) eqn:E.
  - intros H. injection H as <-. apply str_eqb_eq in E. now subst.
  - destruct (codigo cs m) as [j|]; [|discriminate].
    intros H. injection H as <-. simpl. now apply IH.
Qed.

Lemma codigo_in (categories : list str) (m : str) :
  In m categories -> exists i, codigo categories m = Some i.
Proof.
  induction categories as [|c cs IH]; simpl; [contradiction|].
  intros H. destruct (str_eqb c m) eqn:E; [now exists 0|].
  destruct H as [H | H]; [apply str_eqb_neq in E; contradiction|].
  destruct (IH H) as [i Hi]. exists (S i). now rewrite Hi.
Qed.

Section SortFacts.
Context {V : Type}.
Variable categories : list str.

Let leb := @linha_leb V categories.

Lemma linha_leb_total (a b : Linha V) : leb a b = false -> leb b a = true.
Proof.
  unfold leb, linha_leb.
  destruct (codigo categories (l_Mes_nome a)) as [x|],
           (codigo categories (l_Mes_nome b)) as [y|]; simpl;
    try congruence.
  - intros H. apply orb_false_iff in H as [H1 H2].
    apply Nat.ltb_ge in H1. apply orb_true_iff.
    destruct (Nat.eqb_spec x y) as [->|Hne].
    + right. rewrite Nat.eqb_refl. simpl in *. now apply str_leb_total.
    + left. apply Nat.ltb_lt. lia.
  - intros H. now apply str_leb_total.
Qed.

Lemma linha_leb_trans (a b c : Linha V) :
  leb a b = true -> leb b c = true -> leb a c = true.
Proof.
  unfold leb, linha_leb.
  destruct (codigo categories (l_Mes_nome a)) as [x|],
           (codigo categories (l_Mes_nome b)) as [y|],
           (codigo categories (l_Mes_nome c)) as [z|]; simpl;
    try congruence; try (intros; reflexivity).
  - intros H1 H2.
    apply orb_true_iff in H1 as [H1 | H1]; apply orb_true_iff in H2 as [H2 | H2];
      try apply Nat.ltb_lt in H1; try apply Nat.ltb_lt in H2;
      try (apply andb_true_iff in H1 as [E1 H1]; apply Nat.eqb_eq in E1);
      try (apply andb_true_iff in H2 as [E2 H2]; apply Nat.eqb_eq in E2);
      apply orb_true_iff.
    + left. apply Nat.ltb_lt. lia.
    + left. apply Nat.ltb_lt. lia.
    + left. apply Nat.ltb_lt. lia.
    + right. subst. rewrite Nat.eqb_refl. simpl. eapply str_leb_trans; eassumption.
  - intros H1 H2. eapply str_leb_trans; eassumption.
Qed.

Lemma inserir_perm (x : Linha V) (l : list (Linha V)) :
  Permutation (inserir categories x l) (x :: l).
Proof.
  induction l as [|y l IH]; simpl; [reflexivity|].
  destruct (linha_leb categories y x); [|reflexivity].
  rewrite IH. apply perm_swap.
Qed.

Lemma inserir_sorted (x : Linha V) (l : list (Linha V)) :
  StronglySorted (fun a b => leb a b = true) l ->
  StronglySorted (fun a b => leb a b = true) (inserir categories x l).
Proof.
  induction 1 as [|y l Hs IH Hy]; simpl.
  - constructor; constructor.
  - destruct (linha_leb categories y x) eqn:E.
    + constructor; [assumption|].
      apply Forall_forall. intros z Hz.
      apply (Permutation_in _ (inserir_perm x l)) in Hz. destruct Hz as [<- | Hz].
      * exact E.
      * rewrite Forall_forall in Hy. now apply Hy.
    + assert (Hxy : leb x y = true) by now apply linha_leb_total.
      constructor; [now constructor|]. constructor; [assumption|].
      apply Forall_forall. intros z Hz. rewrite Forall_forall in Hy.
      eapply linha_leb_trans; [exact Hxy | now apply Hy].
Qed.

Lemma sort_values_perm (l : list (Linha V)) :
  Permutation (sort_values categories l) l.
Proof.
  unfold sort_values.
  assert (H : forall acc,
             Permutation (fold_left (fun acc x => inserir categories x acc) l acc)
                         (acc ++ l)).
  { induction l as [|x l IH]; intros acc; simpl.
    - now rewrite app_nil_r.
    - rewrite IH, inserir_perm. apply Permutation_middle. }
  exact (H []).
Qed.

Lemma sort_values_sorted (l : list (Linha V)) :
  StronglySorted (fun a b => leb a b = true) (sort_values categories l).
Proof.
  unfold sort_values.
  assert (H : forall acc,
             StronglySorted (fun a b => leb a b = true) acc ->
             StronglySorted (fun a b => leb a b = true)
               (fold_left (fun acc x => inserir categories x acc) l acc)).
  { induction l as [|x l IH]; intros acc Hacc; simpl; [assumption|].
    apply IH. now apply inserir_sorted. }
  apply H. constructor.
Qed.

(** Between rows whose months are among the categories, the order of the
    sort is the order by position and then by breed. *)
Lemma linha_leb_antes (a b : Linha V) :
  In (l_Mes_nome a) categories ->
  In (l_Mes_nome b) categories ->
  leb a b = true ->
  antes categories a b.
Proof.
  intros Ha Hb H. unfold leb, linha_leb in H.
  destruct (codigo_in _ _ Ha) as [ia Hia], (codigo_in _ _ Hb) as [ib Hib].
  rewrite Hia, Hib in H. simpl in H.
  exists ia, ib. split; [now apply codigo_nth|]. split; [now apply codigo_nth|].
  apply orb_true_iff in H as [H | H].
  - left. now apply Nat.ltb_lt.
  - right. apply andb_true_iff in H as [E H]. apply Nat.eqb_eq in E.
    split; [assumption|]. unfold str_leb in H. now apply negb_true_iff.
Qed.

End SortFacts.

(* ================================================================== *)
(** ** The pivot: guards, outer join, order *)

Section MontarFacts.
Variable f : Filtros.
Variables indicadores_selec meses_escolhidos racas_escolhidas : list str.

Let D := df_ind (f_final f) meses_escolhidos racas_escolhidas.

Let tela_de (m : Tabela Q) : Tela :=
  let show := df_show m meses_escolhidos in
  {| t_show := show; t_html := html_table show;
     t_line := coluna show 0; t_bar := coluna show 1 |}.

Lemma montar_poucos (log : list message) :
  length indicadores_selec < 2 ->
  montar f indicadores_selec meses_escolhidos racas_escolhidas log
  = (Stopped, log ++ [warning_dois_indicadores]).
Proof.
  intros H. unfold montar, bind, st_warning, st_stop.
  apply Nat.ltb_lt in H. now rewrite H.
Qed.

Lemma montar_vazio (log : list message) (m : Tabela Q) :
  2 <= length indicadores_selec ->
  df_merge (f_final f) indicadores_selec meses_escolhidos racas_escolhidas = Some m ->
  linhas m = [] ->
  montar f indicadores_selec meses_escolhidos racas_escolhidas log
  = (Stopped, log ++ [warning_nenhum_dado]).
Proof.
  intros H Hm Hl. unfold montar, bind, st_warning, st_stop, ret.
  apply Nat.ltb_ge in H. now rewrite H, Hm, Hl.
Qed.

Lemma montar_ok (log : list message) (m : Tabela Q) :
  2 <= length indicadores_selec ->
  df_merge (f_final f) indicadores_selec meses_escolhidos racas_escolhidas = Some m ->
  linhas m <> [] ->
  categorias_unicas meses_escolhidos = true ->
  montar f indicadores_selec meses_escolhidos racas_escolhidas log
  = (Returned (tela_de m), log).
Proof.
  intros H Hm Hl Hu. unfold montar, bind, st_warning, st_stop, ret.
  apply Nat.ltb_ge in H. rewrite H, Hm, Hu.
  destruct (linhas m) as [|l ls] eqn:E; [contradiction|]. reflexivity.
Qed.

(** The loop over a selection of two or more builds a table. *)
Lemma df_merge_some :
  1 <= length indicadores_selec ->
  exists m,
    df_merge (f_final f) indicadores_selec meses_escolhidos racas_escolhidas = Some m
    /\ valor_cols m = indicadores_selec
    /\ pivot_inv D m.
Proof.
  intros H. destruct indicadores_selec as [|ind sel]; [cbn in H; lia|].
  apply df_merge_inv.
Qed.

(** The rows of [df_show] are the rows of [df_merge], rounded. *)
Lemma df_show_in (m : Tabela Q) (l : Linha Dec2) :
  In l (linhas (df_show m meses_escolhidos)) <->
  exists l0, In l0 (linhas m) /\ chave l = chave l0
             /\ l_Valor l = map arredondar (l_Valor l0).
Proof.
  unfold df_show. cbn [linhas]. rewrite in_map_iff. split.
  - intros [l0 [<- Hl0]]. exists l0. split; [|now split].
    now apply (Permutation_in _ (sort_values_perm meses_escolhidos (linhas m))).
  - intros [l0 [Hl0 [Hk Hv]]]. exists l0. split.
    + destruct l as [a b vs]. unfold chave in Hk. cbn in *.
      injection Hk as -> ->. now subst vs.
    + apply (Permutation_in _ (Permutation_sym
               (sort_values_perm meses_escolhidos (linhas m)))). assumption.
Qed.

Lemma df_ind_mes (ind m b : str) (v : option Q) :
  In (m, b, v) (D ind) -> In m meses_escolhidos /\ In b racas_escolhidas.
Proof.
  unfold D, df_ind. rewrite in_map_iff. intros [r [E Hr]].
  injection E as <- <- <-. apply filter_In in Hr as [_ Hr].
  apply andb_true_iff in Hr as [Hr Hb]. apply andb_true_iff in Hr as [_ Hm].
  split; now apply str_in_In.
Qed.

End MontarFacts.

Lemma StronglySorted_map_in {A B : Type} (R : A -> A -> Prop) (R' : B -> B -> Prop)
  (g : A -> B) (l : list A) :
  (forall a b, In a l -> In b l -> R a b -> R' (g a) (g b)) ->
  StronglySorted R l -> StronglySorted R' (map g l).
Proof.
  intros H Hs. induction Hs as [|a l Hs IH Ha]; simpl; constructor.
  - apply IH. intros x y Hx Hy. apply H; now right.
  - rewrite Forall_forall in *. intros y Hy.
    apply in_map_iff in Hy as [x [<- Hx]].
    apply H; [now left | now right | now apply Ha].
Qed.

(** C2: if, among the filtered records, indicator [X] has a value at the
    key [(m, b)] and indicator [Y] has none there (no record, or blank
    ones only), the run shows a table that has a row of this key with the
    value of [X] (rounded) in the column of [X] and a blank in the column
    of [Y]; and no key of a selected indicator is missing: every filtered
    record has a row with its key and its value. *)
Theorem outer_join_completeness (f : Filtros)
  (indicadores_selec meses_escolhidos racas_escolhidas : list str)
  (iX iY : nat) (X Y m b : str) (x : Q) :
  categorias_unicas meses_escolhidos = true ->
  nth_error indicadores_selec iX = Some X ->
  nth_error indicadores_selec iY = Some Y ->
  In (m, b, Some x) (df_ind (f_final f) meses_escolhidos racas_escolhidas X) ->
  (forall y, ~ In (m, b, Some y)
               (df_ind (f_final f) meses_escolhidos racas_escolhidas Y)) ->
  exists tela,
    run (montar f indicadores_selec meses_escolhidos racas_escolhidas)
    = (Returned tela, [])
    /\ valor_cols (t_show tela) = indicadores_selec
    /\ (exists l, In l (linhas (t_show tela)) /\ chave l = (m, b)
                  /\ nth_error (l_Valor l) iX = Some (Some (round2 x))
                  /\ nth_error (l_Valor l) iY = Some None)
    /\ (forall i Z m' b' v',
           nth_error indicadores_selec i = Some Z ->
           In (m', b', v') (df_ind (f_final f) meses_escolhidos racas_escolhidas Z) ->
           exists l, In l (linhas (t_show tela)) /\ chave l = (m', b')
                     /\ nth_error (l_Valor l) i = Some (arredondar v')).
Proof.
  intros Hu HX HY Hrec Hnone.
  assert (HiX : iX < length indicadores_selec)
    by (apply nth_error_Some; congruence).
  assert (HiY : iY < length indicadores_selec)
    by (apply nth_error_Some; congruence).
  assert (Hne : iX <> iY).
  { intros ->. rewrite HX in HY. injection HY as ->. now apply (Hnone x). }
  assert (H2 : 2 <= length indicadores_selec) by lia.
  destruct (df_merge_some f indicadores_selec meses_escolhidos racas_escolhidas)
    as [t [Ht [Hcols [Hlen [Hprov Hinv]]]]]; [lia|].
  assert (Hall : forall i Z m' b' v',
             nth_error indicadores_selec i = Some Z ->
             In (m', b', v') (df_ind (f_final f) meses_escolhidos racas_escolhidas Z) ->
             exists l0, In l0 (linhas t) /\ chave l0 = (m', b')
                        /\ nth_error (l_Valor l0) i = Some v').
  { intros i Z m' b' v' Hi Hin. rewrite <- Hcols in Hi.
    destruct (Hinv i Z Hi) as [Hc _]. exact (Hc (m', b') v' Hin). }
  destruct (Hall iX X m b (Some x) HX Hrec) as [l0 [Hl0 [Hk0 Hn0]]].
  assert (Hrows : linhas t <> []) by (intros E; rewrite E in Hl0; contradiction).
  exists {| t_show := df_show t meses_escolhidos;
            t_html := html_table (df_show t meses_escolhidos);
            t_line := coluna (df_show t meses_escolhidos) 0;
            t_bar := coluna (df_show t meses_escolhidos) 1 |}.
  split; [unfold run; now apply montar_ok|].
  cbn [t_show]. split; [exact Hcols|]. split.
  - exists {| l_Mes_nome := l_Mes_nome l0; l_Raca := l_Raca l0;
              l_Valor := map arredondar (l_Valor l0) |}.
    split; [apply df_show_in; exists l0; now repeat split|].
    split; [exact Hk0|]. cbn [l_Valor]. rewrite !nth_error_map, Hn0.
    split; [reflexivity|].
    assert (HlY : iY < length (l_Valor l0))
      by (rewrite (Hlen l0 Hl0), Hcols; exact HiY).
    destruct (nth_error (l_Valor l0) iY) as [w|] eqn:Ew;
      [|apply nth_error_None in Ew; lia].
    rewrite <- Hcols in HY. destruct (Hinv iY Y HY) as [_ Hs].
    destruct (Hs l0 w Hl0 Ew) as [Hin | [-> _]]; [|reflexivity].
    destruct w as [y|]; [|reflexivity].
    rewrite Hk0 in Hin. now apply Hnone in Hin.
  - intros i Z m' b' v' Hi Hin.
    destruct (Hall i Z m' b' v' Hi Hin) as [l1 [Hl1 [Hk1 Hn1]]].
    exists {| l_Mes_nome := l_Mes_nome l1; l_Raca := l_Raca l1;
              l_Valor := map arredondar (l_Valor l1) |}.
    split; [apply df_show_in; exists l1; now repeat split|].
    split; [exact Hk1|]. cbn [l_Valor]. now rewrite nth_error_map, Hn1.
Qed.

(** C6: when the selection has two indicators or more and some selected
    indicator has a record that passes the filters, the run shows a table
    whose rows are the rows of the join, sorted: of two rows the earlier
    one has its month earlier in the list of months that the user chose,
    or the same month and a breed that is not greater in the order of
    strings, in which [Hibrido] comes before [Zebu]. *)
Theorem result_order (f : Filtros)
  (indicadores_selec meses_escolhidos racas_escolhidas : list str)
  (ind m b : str) (v : option Q) :
  2 <= length indicadores_selec ->
  categorias_unicas meses_escolhidos = true ->
  In ind indicadores_selec ->
  In (m, b, v) (df_ind (f_final f) meses_escolhidos racas_escolhidas ind) ->
  exists tela t,
    run (montar f indicadores_selec meses_escolhidos racas_escolhidas)
    = (Returned tela, [])
    /\ df_merge (f_final f) indicadores_selec meses_escolhidos racas_escolhidas
       = Some t
    /\ Permutation (map chave (linhas (t_show tela))) (map chave (linhas t))
    /\ StronglySorted (antes meses_escolhidos) (linhas (t_show tela))
    /\ str_ltb Hibrido Zebu = true.
Proof.
  intros H2 Hu Hind Hrec.
  destruct (df_merge_some f indicadores_selec meses_escolhidos racas_escolhidas)
    as [t [Ht [Hcols [Hlen [Hprov Hinv]]]]]; [lia|].
  apply In_nth_error in Hind as [i Hi]. rewrite <- Hcols in Hi.
  destruct (Hinv i ind Hi) as [Hc _].
  destruct (Hc (m, b) v Hrec) as [l0 [Hl0 _]].
  assert (Hrows : linhas t <> []) by (intros E; rewrite E in Hl0; contradiction).
  exists {| t_show := df_show t meses_escolhidos;
            t_html := html_table (df_show t meses_escolhidos);
            t_line := coluna (df_show t meses_escolhidos) 0;
            t_bar := coluna (df_show t meses_escolhidos) 1 |}, t.
  split; [unfold run; now apply montar_ok|].
  split; [exact Ht|]. cbn [t_show]. split; [|split; [|reflexivity]].
  - unfold df_show. cbn [linhas]. rewrite map_map.
    change (fun x : Linha Q =>
              chave {| l_Mes_nome := l_Mes_nome x; l_Raca := l_Raca x;
                       l_Valor := map arredondar (l_Valor x) |})
      with (@chave Q).
    apply Permutation_map, sort_values_perm.
  - unfold df_show. cbn [linhas].
    apply StronglySorted_map_in
      with (R := fun a b => linha_leb meses_escolhidos a b = true);
      [|apply sort_values_sorted].
    assert (Hmes : forall a, In a (sort_values meses_escolhidos (linhas t)) ->
                             In (l_Mes_nome a) meses_escolhidos).
    { intros a Ha.
      apply (Permutation_in _ (sort_values_perm meses_escolhidos (linhas t))) in Ha.
      destruct (Hprov a Ha) as [ind0 [w [_ Hw]]].
      exact (proj1 (df_ind_mes f meses_escolhidos racas_escolhidas ind0
                      (l_Mes_nome a) (l_Raca a) w Hw)). }
    intros a c Ha Hc' Hle.
    destruct (linha_leb_antes meses_escolhidos a c (Hmes a Ha) (Hmes c Hc') Hle)
      as [ia [ib Hab]].
    exists ia, ib. exact Hab.
Qed.

(** Once the filters are built, the run goes on with what the user picks. *)
Lemma app_after_preparar {U : UnicodeData} (df : DataFrame)
  (escolha : Filtros -> list str * list str * list str)
  (f : Filtros) (log : list message) :
  run (preparar df) = (Returned f, log) ->
  run (app df escolha)
  = montar f (fst (fst (escolha f))) (snd (fst (escolha f))) (snd (escolha f)) log.
Proof.
  intros H. unfold run, app, bind in *. rewrite H.
  now destruct (escolha f) as [[a b] c].
Qed.

(** C7: with fewer than two indicators selected the run shows the warning
    that asks for two and stops there: no table is built and nothing is
    raised, whatever the months and the breeds, and whatever was shown before. *)
Theorem too_few_indicators (f : Filtros)
  (indicadores_selec meses_escolhidos racas_escolhidas : list str)
  (log : list message) :
  length indicadores_selec < 2 ->
  montar f indicadores_selec meses_escolhidos racas_escolhidas log
  = (Stopped, log ++ [warning_dois_indicadores]).
Proof. apply montar_poucos. Qed.

(** C8: with two indicators or more selected, when no record of any of
    them passes the filters, the run shows the warning of the empty result,
    which is another message than the warning of the selection, and stops. *)
Theorem empty_result (f : Filtros)
  (indicadores_selec meses_escolhidos racas_escolhidas : list str)
  (log : list message) :
  2 <= length indicadores_selec ->
  (forall ind, In ind indicadores_selec ->
     df_ind (f_final f) meses_escolhidos racas_escolhidas ind = []) ->
  montar f indicadores_selec meses_escolhidos racas_escolhidas log
  = (Stopped, log ++ [warning_nenhum_dado])
  /\ warning_nenhum_dado <> warning_dois_indicadores.
Proof.
  intros H2 Hempty. split; [|discriminate].
  destruct (df_merge_some f indicadores_selec meses_escolhidos racas_escolhidas)
    as [t [Ht [Hcols [_ [Hprov _]]]]]; [lia|].
  apply montar_vazio with (m := t); [assumption | assumption |].
  destruct (linhas t) as [|l ls] eqn:E; [reflexivity|].
  destruct (Hprov l) as [ind [w [Hin Hw]]]; [now left|].
  rewrite Hcols in Hin. rewrite (Hempty ind Hin) in Hw. contradiction.
Qed.

Lemma outer_join_completeness_witness :
  exists tela,
    run (montar Exemplos.filtros_dois_meses [Exemplos.Peso; Exemplos.Consumo]
                [Exemplos.Janeiro; Exemplos.Fevereiro] racas)
    = (Returned tela, [])
    /\ valor_cols (t_show tela) = [Exemplos.Peso; Exemplos.Consumo]
    /\ (exists l, In l (linhas (t_show tela))
                  /\ chave l = (Exemplos.Janeiro, Zebu)
                  /\ nth_error (l_Valor l) 0 = Some (Some (round2 (4 # 1)))
                  /\ nth_error (l_Valor l) 1 = Some None)
    /\ (forall i Z m' b' v',
           nth_error [Exemplos.Peso; Exemplos.Consumo] i = Some Z ->
           In (m', b', v')
              (df_ind (f_final Exemplos.filtros_dois_meses)
                      [Exemplos.Janeiro; Exemplos.Fevereiro] racas Z) ->
           exists l, In l (linhas (t_show tela)) /\ chave l = (m', b')
                     /\ nth_error (l_Valor l) i = Some (arredondar v')).
Proof.
  apply (outer_join_completeness Exemplos.filtros_dois_meses
           [Exemplos.Peso; Exemplos.Consumo]
           [Exemplos.Janeiro; Exemplos.Fevereiro] racas
           0 1 Exemplos.Peso Exemplos.Consumo Exemplos.Janeiro Zebu (4 # 1)%Q).
  - reflexivity.
  - reflexivity.
  - reflexivity.
  - vm_compute. right. left. reflexivity.
  - intros y. vm_compute. intros H.
    repeat (destruct H as [H|H]; [discriminate H|]). exact H.
Defined.

Lemma result_order_witness :
  exists tela t,
    run (montar Exemplos.filtros_dois_meses [Exemplos.Peso; Exemplos.Consumo]
                [Exemplos.Fevereiro; Exemplos.Janeiro] racas)
    = (Returned tela, [])
    /\ df_merge (f_final Exemplos.filtros_dois_meses)
                [Exemplos.Peso; Exemplos.Consumo]
                [Exemplos.Fevereiro; Exemplos.Janeiro] racas = Some t
    /\ Permutation (map chave (linhas (t_show tela))) (map chave (linhas t))
    /\ StronglySorted (antes [Exemplos.Fevereiro; Exemplos.Janeiro])
                      (linhas (t_show tela))
    /\ str_ltb Hibrido Zebu = true.
Proof.
  apply (result_order Exemplos.filtros_dois_meses
           [Exemplos.Peso; Exemplos.Consumo]
           [Exemplos.Fevereiro; Exemplos.Janeiro] racas
           Exemplos.Peso Exemplos.Janeiro Hibrido (Some (7 # 2)%Q)).
  - cbn. lia.
  - reflexivity.
  - now left.
  - vm_compute. left. reflexivity.
Defined.

(** With the months chosen as February, January the rows of February come
    first: the order is the order of the choice, not of the calendar. *)
Example result_order_fevereiro_first :
  map chave
      (linhas (df_show
         (match df_merge (f_final Exemplos.filtros_dois_meses)
                         [Exemplos.Peso; Exemplos.Consumo]
                         [Exemplos.Fevereiro; Exemplos.Janeiro] racas with
          | Some t => t
          | None => {| valor_cols := []; linhas := [] |}
          end)
         [Exemplos.Fevereiro; Exemplos.Janeiro]))
  = [ (Exemplos.Fevereiro, Hibrido); (Exemplos.Fevereiro, Zebu);
      (Exemplos.Janeiro, Hibrido); (Exemplos.Janeiro, Zebu) ].
Proof. reflexivity. Qed.

Lemma too_few_indicators_witness :
  montar Exemplos.filtros_dois_meses [Exemplos.Peso]
         [Exemplos.Janeiro; Exemplos.Fevereiro] racas []
  = (Stopped, [] ++ [warning_dois_indicadores]).
Proof.
  apply (too_few_indicators Exemplos.filtros_dois_meses [Exemplos.Peso]
           [Exemplos.Janeiro; Exemplos.Fevereiro] racas []).
  cbn. lia.
Defined.

Lemma empty_result_witness :
  montar Exemplos.filtros_dois_meses [Exemplos.Peso; Exemplos.Consumo] [] racas []
  = (Stopped, [] ++ [warning_nenhum_dado])
  /\ warning_nenhum_dado <> warning_dois_indicadores.
Proof.
  apply (empty_result Exemplos.filtros_dois_meses
           [Exemplos.Peso; Exemplos.Consumo] [] racas []).
  - cbn. lia.
  - intros ind [<- | [<- | []]]; reflexivity.
Defined.

(* ================================================================== *)
(** ** The filters: indicators and months *)

Lemma unique_in (seen l : list str) (x : str) :
  In x (unique seen l) <-> In x l /\ ~ In x seen.
Proof.
  revert seen. induction l as [|y l IH]; intros seen; simpl.
  - tauto.
  - destruct (str_in y seen) eqn:E.
    + apply str_in_In in E. rewrite IH. split.
      * intros [H1 H2]. split; [now right | assumption].
      * intros [[-> | H1] H2]; [contradiction | now split].
    + assert (Hy : ~ In y seen)
        by (intros H; apply str_in_In in H; congruence).
      simpl. rewrite IH. simpl. split.
      * intros [<- | [H1 H2]]; [split; [now left | assumption]|].
        split; [now right | tauto].
      * intros [[-> | H1] H2]; [now left|].
        destruct (str_eqb y x) eqn:Eyx.
        -- apply str_eqb_eq in Eyx. now left.
        -- apply str_eqb_neq in Eyx. right. split; [assumption|].
           intros [H | H]; [contradiction | contradiction].
Qed.

Lemma unique_nodup (seen l : list str) : NoDup (unique seen l).
Proof.
  revert seen. induction l as [|y l IH]; intros seen; simpl.
  - constructor.
  - destruct (str_in y seen); [apply IH|].
    constructor; [|apply IH].
    intros H. apply unique_in in H as [_ H]. apply H. now left.
Qed.

Lemma insert_sorted_perm (x : str) (l : list str) :
  Permutation (insert_sorted x l) (x :: l).
Proof.
  induction l as [|y l IH]; simpl; [reflexivity|].
  destruct (str_ltb x y); [reflexivity|].
  rewrite IH. apply perm_swap.
Qed.

Lemma sorted_perm (l : list str) : Permutation (sorted l) l.
Proof.
  unfold sorted.
  assert (H : forall acc,
             Permutation (fold_left (fun acc x => insert_sorted x acc) l acc)
                         (acc ++ l)).
  { induction l as [|x l IH]; intros acc; simpl.
    - now rewrite app_nil_r.
    - rewrite IH, insert_sorted_perm. apply Permutation_middle. }
  exact (H []).
Qed.

Lemma dropna_in (l : list (option str)) (x : str) :
  In x (dropna l) <-> In (Some x) l.
Proof.
  induction l as [|[y|] l IH]; simpl.
  - tauto.
  - rewrite IH. split; intros [H | H]; auto; left; congruence.
  - rewrite IH. split; [auto | intros [H | H]; [discriminate | assumption]].
Qed.

Lemma categorias_unicas_filter (p : str -> bool) (l : list str) :
  categorias_unicas l = true -> categorias_unicas (filter p l) = true.
Proof.
  induction l as [|x l IH]; simpl; [reflexivity|].
  intros H. apply andb_true_iff in H as [Hx Hl].
  destruct (p x); simpl; [|now apply IH].
  rewrite (IH Hl), andb_true_r.
  apply negb_true_iff. apply negb_true_iff in Hx.
  destruct (str_in x (filter p l)) eqn:E; [|reflexivity].
  apply str_in_In in E. apply filter_In in E as [E _].
  apply str_in_In in E. congruence.
Qed.

Lemma in_combine_seq {A : Type} (l : list A) (s j : nat) (x : A) :
  In (j, x) (combine (seq s (length l)) l) <->
  s <= j /\ nth_error l (j - s) = Some x.
Proof.
  revert s. induction l as [|y l IH]; intros s; simpl.
  - split; [contradiction|]. intros [_ H]. destruct (j - s); discriminate.
  - rewrite IH. split.
    + intros [E | [Hs Hn]].
      * injection E as <- <-. rewrite Nat.sub_diag. now split.
      * split; [lia|]. replace (j - s) with (S (j - S s)) by lia. exact Hn.
    + intros [Hs Hn]. destruct (Nat.eq_dec s j) as [<- | Hne].
      * rewrite Nat.sub_diag in Hn. cbn in Hn. injection Hn as <-. now left.
      * right. split; [lia|].
        replace (j - s) with (S (j - S s)) in Hn by lia. exact Hn.
Qed.

Lemma in_combine_nth_error {A B : Type} (l1 : list A) (l2 : list B) (a : A) (b : B) :
  In (a, b) (combine l1 l2) <->
  exists j, nth_error l1 j = Some a /\ nth_error l2 j = Some b.
Proof.
  revert l2. induction l1 as [|x l1 IH]; intros [|y l2]; simpl.
  - split; [contradiction|]. intros [[|j] [H _]]; discriminate.
  - split; [contradiction|]. intros [[|j] [H _]]; discriminate.
  - split; [contradiction|]. intros [[|j] [_ H]]; discriminate.
  - rewrite IH. split.
    + intros [E | [j Hj]]; [injection E as <- <-; now exists 0 | now exists (S j)].
    + intros [[|j] [H1 H2]]; cbn in *.
      * left. congruence.
      * right. now exists j.
Qed.

(** The rows of the melted frame: one for every row of the sheet and
    every column after the first. *)
Lemma melt_in (df : DataFrame) (i : option str) (lab : pyobj) (v : option Q) :
  In (i, lab, v) (melt df) <->
  exists r j, In r (rows df) /\ nth_error (tl (columns df)) j = Some lab
              /\ i = indicador r /\ v = nth j (valores r) None.
Proof.
  unfold melt. rewrite in_flat_map. split.
  - intros [[j c] [Hjc Hin]]. apply in_combine_seq in Hjc as [_ Hn].
    rewrite Nat.sub_0_r in Hn. apply in_map_iff in Hin as [r [E Hr]].
    cbn [fst snd] in E. injection E as <- <- <-. exists r, j. now repeat split.
  - intros [r [j [Hr [Hn [-> ->]]]]]. exists (j, lab). split.
    + apply in_combine_seq. split; [lia|]. now rewrite Nat.sub_0_r.
    + apply in_map_iff. exists r. now split.
Qed.

Lemma split_dot_has_dot (a rest : str) :
  exists x y, split_dot (a ++ DOT :: rest) = (x, Some y).
Proof.
  induction a as [|c a [x [y IH]]]; simpl.
  - exists [], rest. reflexivity.
  - destruct (c =? DOT)%N; [now exists [], (a ++ DOT :: rest)|].
    rewrite IH. now exists (c :: x), y.
Qed.

Lemma split_dot_app (a rest : str) :
  ~ In DOT a -> split_dot (a ++ DOT :: rest) = (a, Some rest).
Proof.
  induction a as [|c a IH]; simpl; intros H.
  - reflexivity.
  - destruct (N.eqb_spec c DOT) as [-> | Hc]; [exfalso; apply H; now left|].
    rewrite IH; [reflexivity|]. intros Hin. apply H. now right.
Qed.

Lemma split_width_two (l : list (option str * option str)) :
  Forall (fun p => exists a b, p = (Some a, Some b)) l ->
  l <> [] -> split_width l = 2.
Proof.
  intros H. induction H as [|p l [a [b ->]] _ IH]; [congruence|].
  intros _. cbn [split_width fold_right].
  destruct l as [|q l]; [reflexivity|].
  change (fold_right _ 0 (q :: l)) with (split_width (q :: l)).
  rewrite IH by discriminate. reflexivity.
Qed.

Section PrepararFacts.
Context {U : UnicodeData}.

Lemma indicadores_in (final : list Registro) (x : str) :
  In x (indicadores final) <-> exists reg, In reg final /\ Indicador reg = Some x.
Proof.
  unfold indicadores. split.
  - intros H. apply (Permutation_in _ (sorted_perm _)) in H.
    apply unique_in in H as [H _]. apply dropna_in in H.
    apply in_map_iff in H as [reg [E Hr]]. now exists reg.
  - intros [reg [Hr E]].
    apply (Permutation_in _ (Permutation_sym (sorted_perm _))).
    apply unique_in. split; [|tauto]. apply dropna_in.
    apply in_map_iff. now exists reg.
Qed.

Lemma indicadores_nodup (final : list Registro) : NoDup (indicadores final).
Proof.
  unfold indicadores.
  apply (Permutation_NoDup (Permutation_sym (sorted_perm _))).
  apply unique_nodup.
Qed.

Lemma nomes_indicadores_in (df : DataFrame) (x : str) :
  In x (nomes_indicadores df) <-> exists r, In r (rows df) /\ indicador r = Some x.
Proof.
  unfold nomes_indicadores. rewrite unique_in, dropna_in, in_map_iff.
  split.
  - intros [[r [E Hr]] _]. now exists r.
  - intros [r [Hr E]]. split; [now exists r | tauto].
Qed.

(** The labels of the renamed month columns. *)
Lemma pares_in (mes_cols : list pyobj) (lab : pyobj) :
  In lab (pares mes_cols) ->
  exists c suffix, In c mes_cols
                   /\ lab = PyStr (canonical_month c ++ DOT :: suffix).
Proof.
  induction mes_cols as [| a | a b l IH] using pair_induction.
  - contradiction.
  - intros [<- | [<- | []]]; exists a; eexists; (split; [now left | reflexivity]).
  - change (pares (a :: b :: l))
      with (PyStr (canonical_month a ++ py ".Hibrido")
            :: PyStr (canonical_month a ++ py ".Zebu") :: pares l).
    intros [<- | [<- | H]].
    + exists a. eexists. split; [now left | reflexivity].
    + exists a. eexists. split; [now left | reflexivity].
    + destruct (IH H) as [c [suffix [Hc E]]]. exists c, suffix.
      split; [right; now right | exact E].
Qed.

(** The records come from the rows of the sheet. *)
Lemma df_final_indicador (df : DataFrame) (reg : Registro) :
  In reg (df_final (map linha_longa (melt df))) ->
  exists r, In r (rows df) /\ Indicador reg = indicador r.
Proof.
  unfold df_final. rewrite in_flat_map. intros [lg [Hlg Hin]].
  apply in_map_iff in Hlg as [[[i lab] v] [<- Ht]].
  apply melt_in in Ht as [r [j [Hr [_ [-> _]]]]].
  exists r. split; [assumption|].
  unfold manter, linha_longa in Hin. cbn [fst snd lg_Mes_nome lg_Raca lg_indicador lg_Valor] in Hin.
  destruct (split_label lab) as [[m|] [b|]]; cbn [fst snd] in Hin; try contradiction.
  destruct (str_in b [Zebu; Hibrido]); [|contradiction].
  destruct Hin as [<- | []]. reflexivity.
Qed.

(** What [renomear] returns, it returns for blocks of two columns. *)
Lemma renomear_returned (df df' : DataFrame) (log : list message) :
  run (renomear df) = (Returned df', log) ->
  log = [] /\ rows df' = rows df
  /\ exists indicador_col mes_cols,
       columns df = indicador_col :: mes_cols
       /\ Nat.even (length mes_cols) = true
       /\ columns df' = indicador_col :: pares mes_cols.
Proof.
  intros H. destruct (columns df) as [|c mes_cols] eqn:Hc.
  - unfold run, renomear in H. rewrite Hc in H. discriminate.
  - destruct (Nat.even (length mes_cols)) eqn:Hev.
    + rewrite (renomear_par df c mes_cols Hc Hev) in H.
      injection H as <- <-. split; [reflexivity|]. split; [reflexivity|].
      exists c, mes_cols. now repeat split.
    + assert (Hodd : Nat.odd (length mes_cols) = true)
        by (unfold Nat.odd; now rewrite Hev).
      rewrite (renomear_impar df c mes_cols Hc Hodd) in H. discriminate.
Qed.

Lemma cabecalho_livre_headers (df : DataFrame) (c : pyobj) (mes_cols : list pyobj) :
  columns df = c :: mes_cols ->
  cabecalho_livre df = true ->
  header_is c (py "Valor") = false
  /\ header_is c (py "Mes_nome") = false
  /\ header_is c (py "Raca") = false.
Proof.
  intros Hc H. unfold cabecalho_livre in H. rewrite Hc in H.
  apply andb_true_iff in H as [H _].
  apply andb_true_iff in H as [H H4]. apply andb_true_iff in H as [H H3].
  apply andb_true_iff in H as [_ H2].
  apply negb_true_iff in H2, H3, H4. now repeat split.
Qed.

(** With a free header [df_long] is the melt and the split alone. *)
Lemma df_long_livre (df' : DataFrame) (c : pyobj) (cols : list pyobj)
  (log : list message) :
  columns df' = c :: cols ->
  header_is c (py "Valor") = false ->
  header_is c (py "Mes_nome") = false ->
  header_is c (py "Raca") = false ->
  df_long df' log
  = if Nat.eqb (split_width (map (fun t => split_label (snd (fst t))) (melt df'))) 2
    then (Returned (map linha_longa (melt df')), log)
    else (Raised ValueError, log).
Proof.
  intros Hc Hv Hm Hr. unfold df_long, melt_recusa, indicador_col_de.
  rewrite Hc. cbn [hd]. rewrite Hv.
  destruct (Nat.eqb _ 2); [|reflexivity]. unfold ret. f_equal. f_equal.
  rewrite <- (map_id (map linha_longa (melt df'))) at 2.
  apply map_ext. intros r. unfold sobrescrever. now rewrite Hm, Hr.
Qed.

(** The split has its two columns as soon as there is a row and a month
    column. *)
Lemma split_width_melt (df' : DataFrame) (indicador_col : pyobj)
  (mes_cols : list pyobj) :
  columns df' = indicador_col :: pares mes_cols ->
  mes_cols <> [] -> rows df' <> [] ->
  split_width (map (fun t => split_label (snd (fst t))) (melt df')) = 2.
Proof.
  intros Hc Hm Hr. apply split_width_two.
  - apply Forall_forall. intros p Hp. apply in_map_iff in Hp as [[[i lab] v] [<- Ht]].
    apply melt_in in Ht as [r [j [_ [Hn _]]]]. rewrite Hc in Hn. cbn [tl] in Hn.
    apply nth_error_In in Hn. apply pares_in in Hn as [c [suffix [_ ->]]].
    cbn [fst snd split_label].
    destruct (split_dot_has_dot (canonical_month c) suffix) as [x [y ->]].
    now exists x, y.
  - destruct (rows df') as [|r rs] eqn:Er; [congruence|].
    destruct mes_cols as [|c cs]; [congruence|].
    intros E. apply map_eq_nil in E.
    assert (Hin : In (indicador r, PyStr (canonical_month c ++ py ".Hibrido"),
                      nth 0 (valores r) None) (melt df')).
    { apply melt_in. exists r, 0. rewrite Hc, Er. repeat split. now left. }
    rewrite E in Hin. contradiction.
Qed.

Lemma df_long_returns (df' : DataFrame) (indicador_col : pyobj)
  (mes_cols : list pyobj) (log : list message) :
  columns df' = indicador_col :: pares mes_cols ->
  header_is indicador_col (py "Valor") = false ->
  header_is indicador_col (py "Mes_nome") = false ->
  header_is indicador_col (py "Raca") = false ->
  mes_cols <> [] -> rows df' <> [] ->
  df_long df' log = (Returned (map linha_longa (melt df')), log).
Proof.
  intros Hc Hv Hm Hr Hmes Hrows.
  rewrite (df_long_livre df' indicador_col (pares mes_cols) log Hc Hv Hm Hr).
  now rewrite (split_width_melt df' indicador_col mes_cols Hc Hmes Hrows).
Qed.

(** With an odd number of month columns a sheet of one indicator does not
    come to the default selection either: the run shows the warning of
    the columns and ends in the [ValueError] of the assignment of the
    names. *)
Lemma one_indicator_odd_columns :
  length (nomes_indicadores Exemplos.impar) < 2
  /\ run (preparar (U := Latin.ucd) Exemplos.impar)
     = (Raised ValueError, [warning_colunas_impar])
  /\ run (preparar (U := Latin.ucd) Exemplos.impar) <> (Raised IndexError, []).
Proof.
  split; [vm_compute; lia|]. split; [reflexivity | discriminate].
Qed.

End PrepararFacts.

(** C10, as worded, fails by the way the script is written.  A sheet
    with one indicator and no month column ends in the [ValueError] of
    the assignment of the split (line 69), not in an [IndexError]; and a
    sheet with one indicator whose identifier column is headed [Raca]
    reaches the widgets, which offer the two breed labels as indicators. *)
Lemma one_indicator_other_ends :
  (length (nomes_indicadores Exemplos.so_indicador) < 2
   /\ run (preparar (U := Latin.ucd) Exemplos.so_indicador)
      = (Raised ValueError, []))
  /\ (length (nomes_indicadores Exemplos.cabecalho_raca) < 2
      /\ exists f, run (preparar (U := Latin.ucd) Exemplos.cabecalho_raca)
                   = (Returned f, [])
                   /\ f_indicadores f = [Hibrido; Zebu]).
Proof.
  split; split.
  - vm_compute. lia.
  - reflexivity.
  - vm_compute. lia.
  - eexists. split; [vm_compute; reflexivity | reflexivity].
Qed.

(** C10 (amended): for a sheet whose identifier column has a free header
    (none of the column names the script uses), the widgets, and with
    them the check of the selection, are reached only when the sheet has
    two distinct indicator names or more; such a sheet with blocks of two
    month columns (one block or more), one row or more and fewer than two
    distinct indicator names ends in the [IndexError] of the default
    selection, before anything is shown. *)
Theorem fewer_than_two_indicators (U : UnicodeData) (df : DataFrame) :
  (forall f log, cabecalho_livre df = true ->
                 run (preparar df) = (Returned f, log) ->
                 2 <= length (nomes_indicadores df))
  /\ (forall indicador_col mes_cols,
        columns df = indicador_col :: mes_cols ->
        cabecalho_livre df = true ->
        Nat.even (length mes_cols) = true ->
        mes_cols <> [] ->
        rows df <> [] ->
        length (nomes_indicadores df) < 2 ->
        run (preparar df) = (Raised IndexError, [])).
Proof.
  assert (Hle : forall df', rows df' = rows df ->
                  length (indicadores (df_final (map linha_longa (melt df'))))
                  <= length (nomes_indicadores df)).
  { intros df' Hrows. apply NoDup_incl_length; [apply indicadores_nodup|].
    intros x Hx. apply indicadores_in in Hx as [reg [Hreg E]].
    apply df_final_indicador in Hreg as [r [Hr E']].
    apply nomes_indicadores_in. exists r. rewrite Hrows in Hr.
    split; [assumption | congruence]. }
  split.
  - intros f log Hfree H. unfold run, preparar, bind in H.
    destruct (renomear df []) as [[df' | | e] log1] eqn:Hren; try discriminate.
    apply renomear_returned in Hren
      as [-> [Hrows [c [mes_cols [Hc [_ Hc']]]]]].
    destruct (cabecalho_livre_headers df c mes_cols Hc Hfree) as [Hv [Hm Hr]].
    rewrite (df_long_livre df' c (pares mes_cols) [] Hc' Hv Hm Hr) in H.
    destruct (Nat.eqb _ 2); [|discriminate].
    specialize (Hle df' Hrows).
    destruct (indicadores (df_final (map linha_longa (melt df'))))
      as [|i0 [|i1 rest]]; try discriminate.
    cbn [length] in Hle. lia.
  - intros indicador_col mes_cols Hc Hfree Hev Hm Hr Hlt.
    destruct (cabecalho_livre_headers df indicador_col mes_cols Hc Hfree)
      as [Hv [Hmn Hra]].
    unfold run, preparar, bind.
    pose proof (renomear_par df indicador_col mes_cols Hc Hev) as Hren.
    unfold run in Hren. rewrite Hren.
    rewrite (df_long_returns _ indicador_col mes_cols);
      [|reflexivity|assumption|assumption|assumption|assumption|assumption].
    specialize (Hle {| columns := indicador_col :: pares mes_cols; rows := rows df |} eq_refl).
    destruct (indicadores _) as [|i0 [|i1 rest]]; try reflexivity.
    cbn [length] in Hle. lia.
Qed.

Lemma fewer_than_two_indicators_witness :
  run (preparar (U := Latin.ucd) Exemplos.um_indicador) = (Raised IndexError, []).
Proof.
  apply (proj2 (fewer_than_two_indicators Latin.ucd Exemplos.um_indicador)
           (Exemplos.s "Indicador") [Exemplos.s "Jan_Hib"; Exemplos.s "Jan_Zeb"]).
  - reflexivity.
  - reflexivity.
  - reflexivity.
  - discriminate.
  - discriminate.
  - vm_compute. lia.
Defined.

(* ================================================================== *)
(** ** Reshape, then pivot *)

Lemma ordem_meses_no_dot (m : str) : In m ordem_meses -> ~ In DOT m.
Proof.
  intros H. cbv in H.
  repeat (destruct H as [<- | H];
          [cbv; intros Hd; repeat (destruct Hd as [Hd | Hd]; [discriminate Hd|]);
           exact Hd|]).
  contradiction.
Qed.

Lemma nth_Some_nth_error {A : Type} (l : list (option A)) (i : nat) (y : A) :
  nth i l None = Some y <-> nth_error l i = Some (Some y).
Proof.
  revert i. induction l as [|x l IH]; intros [|i]; simpl;
    try (split; discriminate).
  - split; congruence.
  - apply IH.
Qed.

Lemma manter_label (ind : option str) (m suffix : str) (v : option Q) :
  ~ In DOT m ->
  str_in suffix [Zebu; Hibrido] = true ->
  manter (linha_longa (ind, PyStr (m ++ DOT :: suffix), v))
  = [ {| Indicador := ind; Mes_nome := m; Raca := suffix; Valor := v |} ].
Proof.
  intros Hm Hs. unfold manter, linha_longa, split_label. cbn [fst snd].
  rewrite (split_dot_app m suffix Hm). cbn [fst snd lg_Mes_nome lg_Raca].
  now rewrite Hs.
Qed.

Section RoundTripFacts.
Context {U : UnicodeData}.

(** The records of one row of the sheet are its cells, block by block. *)
Lemma registros_celulas (ind : option str) (mes_cols : list pyobj)
  (vals : list (option Q)) :
  Nat.even (length mes_cols) = true ->
  length vals = length mes_cols ->
  (forall c, In c (primeiros mes_cols) -> In (canonical_month c) ordem_meses) ->
  flat_map (fun p => manter (linha_longa (ind, fst p, snd p)))
           (combine (pares mes_cols) vals)
  = map (registro_de ind) (celulas mes_cols vals).
Proof.
  revert vals.
  induction mes_cols as [| a | a b l IH] using pair_induction;
    intros vals Hev Hlen Hrec.
  - reflexivity.
  - discriminate.
  - destruct vals as [|h [|z vals]]; try discriminate.
    change (pares (a :: b :: l))
      with (PyStr (canonical_month a ++ DOT :: Hibrido)
            :: PyStr (canonical_month a ++ DOT :: Zebu) :: pares l).
    cbn [combine flat_map celulas map fst snd].
    assert (Ha : ~ In DOT (canonical_month a))
      by (apply ordem_meses_no_dot, Hrec; now left).
    rewrite !manter_label by (assumption || reflexivity).
    rewrite (IH vals).
    + reflexivity.
    + exact Hev.
    + cbn [length] in Hlen. lia.
    + intros c Hc. apply Hrec. now right.
Qed.

Lemma celulas_in (mes_cols : list pyobj) (vals : list (option Q))
  (m b : str) (v : option Q) :
  In (m, b, v) (celulas mes_cols vals) ->
  (exists c, In c (primeiros mes_cols) /\ m = canonical_month c)
  /\ (b = Hibrido \/ b = Zebu).
Proof.
  revert vals.
  induction mes_cols as [| a | a c l IH] using pair_induction; intros vals.
  - contradiction.
  - contradiction.
  - destruct vals as [|h [|z vals]]; try contradiction.
    cbn [celulas primeiros]. intros [E | [E | H]].
    + injection E as <- <- <-. split; [exists a; split; [now left | reflexivity] | now left].
    + injection E as <- <- <-. split; [exists a; split; [now left | reflexivity] | now right].
    + destruct (IH vals H) as [[c' [Hc' E]] Hb].
      split; [exists c'; split; [now right | exact E] | exact Hb].
Qed.

Lemma wide_cells_in (df : DataFrame) (ind : str) (c : str * str * option Q) :
  In c (wide_cells df ind) <->
  exists r, In r (rows df) /\ indicador r = Some ind
            /\ In c (celulas (tl (columns df)) (valores r)).
Proof.
  unfold wide_cells. rewrite in_flat_map. split.
  - intros [r [Hr Hin]]. exists r. split; [assumption|].
    destruct (indicador r) as [i|]; [|contradiction].
    destruct (str_eqb i ind) eqn:E; [|contradiction].
    apply str_eqb_eq in E. subst i. now split.
  - intros [r [Hr [E Hin]]]. exists r. split; [assumption|].
    now rewrite E, str_eqb_refl.
Qed.

(** The records of [df_final] are the cells of the rows of the sheet. *)
Lemma df_final_in (df : DataFrame) (indicador_col : pyobj) (mes_cols : list pyobj)
  (reg : Registro) :
  Nat.even (length mes_cols) = true ->
  (forall r, In r (rows df) -> length (valores r) = length mes_cols) ->
  (forall c, In c (primeiros mes_cols) -> In (canonical_month c) ordem_meses) ->
  In reg (df_final (map linha_longa
            (melt {| columns := indicador_col :: pares mes_cols; rows := rows df |})))
  <-> exists r, In r (rows df)
                /\ In reg (map (registro_de (indicador r))
                               (celulas mes_cols (valores r))).
Proof.
  intros Hev Hlen Hrec.
  assert (Hpl : length (pares mes_cols) = length mes_cols).
  { rewrite pares_length. unfold Nat.odd. rewrite Hev. cbn. lia. }
  unfold df_final. rewrite in_flat_map. split.
  - intros [lg [Hlg Hin]].
    apply in_map_iff in Hlg as [[[i lab] v] [<- Ht]].
    apply melt_in in Ht as [r [j [Hr [Hn [-> ->]]]]]. cbn [rows columns tl] in *.
    exists r. split; [assumption|].
    rewrite <- (registros_celulas (indicador r) mes_cols (valores r) Hev (Hlen r Hr) Hrec).
    apply in_flat_map. exists (lab, nth j (valores r) None). split; [|exact Hin].
    apply in_combine_nth_error. exists j. split; [assumption|].
    apply nth_error_nth'. rewrite (Hlen r Hr), <- Hpl.
    apply nth_error_Some. congruence.
  - intros [r [Hr Hin]].
    rewrite <- (registros_celulas (indicador r) mes_cols (valores r) Hev (Hlen r Hr) Hrec)
      in Hin.
    apply in_flat_map in Hin as [[lab v] [Hp Hin]].
    apply in_combine_nth_error in Hp as [j [Hj Hv]].
    exists (linha_longa (indicador r, lab, v)). split; [|exact Hin].
    apply in_map_iff. exists (indicador r, lab, v). split; [reflexivity|].
    apply melt_in. exists r, j. cbn [rows columns tl].
    split; [assumption|]. split; [assumption|]. split; [reflexivity|].
    symmetry. now apply nth_error_nth.
Qed.

End RoundTripFacts.

(** C1: for a sheet of the layout of the input (its identifier header
    none of the column names the script uses) with two indicators or
    more, the run with every indicator, every available month and both
    breeds selected shows a table whose columns are the indicators of the
    sheet and in which, for each indicator, the non-blank triples
    [(Month, Breed, Value)] of its column are the non-blank cells of the
    sheet for this indicator, each value rounded to two decimals. *)
Theorem reshape_pivot_round_trip (U : UnicodeData) (df : DataFrame) :
  bem_formada df = true ->
  2 <= length (nomes_indicadores df) ->
  exists tela,
    run (app df tudo) = (Returned tela, [])
    /\ (forall ind, In ind (valor_cols (t_show tela))
                    <-> In ind (nomes_indicadores df))
    /\ (forall i ind,
          nth_error (valor_cols (t_show tela)) i = Some ind ->
          forall m b y,
            In (m, b, Some y) (coluna (t_show tela) i)
            <-> exists x, In (m, b, Some x) (wide_cells df ind) /\ y = round2 x).
Proof.
  intros Hwf H2. unfold bem_formada in Hwf.
  apply andb_true_iff in Hwf as [Hwf Hrec].
  apply andb_true_iff in Hwf as [Hwf Hev].
  apply andb_true_iff in Hwf as [Hwf Hl2].
  apply andb_true_iff in Hwf as [Hrect Hfree].
  destruct (columns df) as [|indicador_col mes_cols] eqn:Hc; [discriminate|].
  destruct (cabecalho_livre_headers df indicador_col mes_cols Hc Hfree)
    as [Hhv [Hhm Hhr]].
  cbn [tl] in *. apply Nat.leb_le in Hl2.
  rewrite forallb_forall in Hrec.
  assert (Hrec' : forall c, In c (primeiros mes_cols) ->
                            In (canonical_month c) ordem_meses)
    by (intros c Hin; apply str_in_In; now apply Hrec).
  assert (Hlen : forall r, In r (rows df) -> length (valores r) = length mes_cols).
  { intros r Hr. unfold retangular in Hrect. rewrite forallb_forall in Hrect.
    specialize (Hrect r Hr). apply Nat.eqb_eq in Hrect.
    rewrite Hc in Hrect. cbn [length] in Hrect. lia. }
  set (df' := {| columns := indicador_col :: pares mes_cols; rows := rows df |}).
  set (final := df_final (map linha_longa (melt df'))).
  assert (Hfinal : forall reg,
             In reg final <->
             exists r, In r (rows df)
                       /\ In reg (map (registro_de (indicador r))
                                      (celulas mes_cols (valores r))))
    by (intros reg; now apply df_final_in).
  (* every row has a first cell *)
  assert (Hfirst : forall r, In r (rows df) ->
             exists c, In c (celulas mes_cols (valores r))).
  { intros r Hr. specialize (Hlen r Hr).
    destruct mes_cols as [|a [|b l]]; cbn [length] in Hl2; try lia.
    destruct (valores r) as [|h [|z vals]]; try discriminate.
    eexists. now left. }
  assert (Hinds : forall x, In x (indicadores final) <-> In x (nomes_indicadores df)).
  { intros x. rewrite indicadores_in, nomes_indicadores_in. split.
    - intros [reg [Hreg E]]. apply Hfinal in Hreg as [r [Hr Hin]].
      apply in_map_iff in Hin as [c [<- _]]. exists r. now split.
    - intros [r [Hr E]]. destruct (Hfirst r Hr) as [c Hcell].
      exists (registro_de (indicador r) c). split; [|exact E].
      apply Hfinal. exists r. split; [assumption|]. now apply in_map. }
  assert (Hn2 : 2 <= length (indicadores final)).
  { apply Nat.le_trans with (length (nomes_indicadores df)); [assumption|].
    apply NoDup_incl_length; [apply unique_nodup|].
    intros x Hx. now apply Hinds. }
  (* the filtered records of an indicator are its cells *)
  assert (HD : forall ind c,
             In c (df_ind final (meses_disponiveis final) racas ind)
             <-> In c (wide_cells df ind)).
  { intros ind [[m b] v]. rewrite wide_cells_in, Hc. cbn [tl].
    unfold df_ind. rewrite in_map_iff. split.
    - intros [reg [E Hreg]]. apply filter_In in Hreg as [Hreg Hf].
      apply Hfinal in Hreg as [r [Hr Hin]].
      apply in_map_iff in Hin as [c [<- Hcell]].
      unfold registro_de in *. cbn in E, Hf.
      apply andb_true_iff in Hf as [Hf _]. apply andb_true_iff in Hf as [Hf _].
      exists r. split; [assumption|].
      destruct (indicador r) as [i|]; [|discriminate].
      apply str_eqb_eq in Hf. subst i. split; [reflexivity|].
      destruct c as [[m' b'] v']. cbn in E. now injection E as <- <- <-.
    - intros [r [Hr [E Hcell]]].
      exists (registro_de (indicador r) (m, b, v)). split; [reflexivity|].
      assert (Hreg : In (registro_de (indicador r) (m, b, v)) final)
        by (apply Hfinal; exists r; split; [assumption | now apply in_map]).
      apply filter_In. split; [exact Hreg|].
      destruct (celulas_in _ _ _ _ _ Hcell) as [[c [Hcp ->]] Hb].
      unfold registro_de. cbn [Indicador Mes_nome Raca fst snd].
      rewrite E, str_eqb_refl. cbn [andb].
      apply andb_true_iff. split.
      + apply str_in_In. unfold meses_disponiveis. apply filter_In.
        split; [now apply Hrec'|]. apply str_in_In, unique_in.
        split; [|tauto]. apply in_map_iff.
        exists (registro_de (indicador r) (canonical_month c, b, v)).
        now split.
      + destruct Hb as [-> | ->]; reflexivity. }
  (* the run *)
  destruct (indicadores final) as [|i0 [|i1 rest]] eqn:Einds;
    cbn [length] in Hn2; try lia.
  set (f := {| f_final := final; f_indicadores := i0 :: i1 :: rest;
               f_default := [i0; i1];
               f_meses := meses_disponiveis final; f_racas := racas |}).
  assert (Hprep : run (preparar df) = (Returned f, [])).
  { unfold run, preparar, bind.
    pose proof (renomear_par df indicador_col mes_cols Hc Hev) as Hren.
    unfold run in Hren. rewrite Hren.
    assert (Hrows_df : rows df <> []).
    { intros Er. assert (Hin : In i0 (nomes_indicadores df))
        by (apply Hinds; now left).
      apply nomes_indicadores_in in Hin as [r [Hr _]]. rewrite Er in Hr.
      contradiction. }
    rewrite (df_long_returns _ indicador_col mes_cols);
      [| reflexivity | exact Hhv | exact Hhm | exact Hhr
       | intros ->; cbn in Hl2; lia | exact Hrows_df].
    change (df_final (map linha_longa
              (melt {| columns := indicador_col :: pares mes_cols;
                       rows := rows df |}))) with final.
    rewrite Einds. reflexivity. }
  destruct (df_merge_some f (i0 :: i1 :: rest) (meses_disponiveis final) racas)
    as [t [Ht [Hcols [Hlenv [Hprov Hinv]]]]]; [cbn; lia|].
  cbn [f_final f] in Ht, Hprov, Hinv.
  assert (Hcomplete : forall i ind m b v,
             nth_error (i0 :: i1 :: rest) i = Some ind ->
             In (m, b, v) (wide_cells df ind) ->
             exists l0, In l0 (linhas t) /\ chave l0 = (m, b)
                        /\ nth_error (l_Valor l0) i = Some v).
  { intros i ind m b v Hi Hin. rewrite <- Hcols in Hi.
    destruct (Hinv i ind Hi) as [Hcp _]. apply (Hcp (m, b) v). now apply HD. }
  assert (Hrows : linhas t <> []).
  { assert (Hin : In i0 (nomes_indicadores df)) by (apply Hinds; now left).
    apply nomes_indicadores_in in Hin as [r [Hr E]].
    destruct (Hfirst r Hr) as [[[m b] v] Hcell].
    destruct (Hcomplete 0 i0 m b v eq_refl) as [l0 [Hl0 _]].
    - apply wide_cells_in. exists r. rewrite Hc. now repeat split.
    - intros El. rewrite El in Hl0. contradiction. }
  exists {| t_show := df_show t (meses_disponiveis final);
            t_html := html_table (df_show t (meses_disponiveis final));
            t_line := coluna (df_show t (meses_disponiveis final)) 0;
            t_bar := coluna (df_show t (meses_disponiveis final)) 1 |}.
  split; [|split].
  - unfold run, app, bind. unfold run in Hprep. rewrite Hprep.
    unfold tudo. cbn [f_indicadores f_meses f_racas f].
    apply (montar_ok f (i0 :: i1 :: rest) (meses_disponiveis final) racas [] t).
    + cbn. lia.
    + exact Ht.
    + exact Hrows.
    + apply categorias_unicas_filter. reflexivity.
  - intros ind. cbn [t_show df_show valor_cols]. rewrite Hcols. apply Hinds.
  - intros i ind Hi m b y. cbn [t_show] in *. cbn [df_show valor_cols] in Hi.
    unfold coluna. rewrite in_map_iff. split.
    + intros [l [E Hl]]. injection E as Em Eb Ey.
      apply df_show_in in Hl as [l0 [Hl0 [Hk Hv]]].
      rewrite Hv in Ey. apply nth_Some_nth_error in Ey.
      rewrite nth_error_map in Ey.
      destruct (nth_error (l_Valor l0) i) as [[x|]|] eqn:En; try discriminate.
      cbn in Ey. injection Ey as <-. exists x. split; [|reflexivity].
      apply HD. destruct (Hinv i ind Hi) as [_ Hs].
      destruct (Hs l0 (Some x) Hl0 En) as [Hin | [Hx _]]; [|discriminate].
      rewrite <- Hk in Hin. unfold chave in Hin. now rewrite Em, Eb in Hin.
    + intros [x [Hin ->]]. rewrite Hcols in Hi.
      destruct (Hcomplete i ind m b (Some x) Hi Hin) as [l0 [Hl0 [Hk Hn]]].
      exists {| l_Mes_nome := l_Mes_nome l0; l_Raca := l_Raca l0;
                l_Valor := map arredondar (l_Valor l0) |}.
      split.
      * cbn [l_Mes_nome l_Raca l_Valor]. unfold chave in Hk.
        injection Hk as -> ->. f_equal.
        apply nth_Some_nth_error. now rewrite nth_error_map, Hn.
      * apply df_show_in. exists l0. now repeat split.
Qed.

Lemma reshape_pivot_round_trip_witness :
  exists tela,
    run (app (U := Latin.ucd) Exemplos.dois_meses tudo) = (Returned tela, [])
    /\ (forall ind, In ind (valor_cols (t_show tela))
                    <-> In ind (nomes_indicadores Exemplos.dois_meses))
    /\ (forall i ind,
          nth_error (valor_cols (t_show tela)) i = Some ind ->
          forall m b y,
            In (m, b, Some y) (coluna (t_show tela) i)
            <-> exists x, In (m, b, Some x)
                             (wide_cells (U := Latin.ucd) Exemplos.dois_meses ind)
                          /\ y = round2 x).
Proof.
  apply (reshape_pivot_round_trip Latin.ucd Exemplos.dois_meses).
  - reflexivity.
  - vm_compute. lia.
Defined.

(* ================================================================== *)
(** ** Rounding and display *)

(** The rounded integer is within one half of the quotient. *)
Lemma round_half_even_near (n : Z) (d : positive) :
  (2 * Z.abs (round_half_even n d * Zpos d - n) <= Zpos d)%Z.
Proof.
  unfold round_half_even.
  pose proof (Z.div_mod n (Zpos d) ltac:(lia)) as Hn.
  pose proof (Z.mod_pos_bound n (Zpos d) ltac:(lia)) as Hr.
  set (q := (n / Zpos d)%Z) in *. set (r := (n mod Zpos d)%Z) in *.
  cbv zeta.
  destruct (Z.compare_spec (2 * r) (Zpos d)) as [E | E | E];
    [destruct (Z.even q)| |]; nia.
Qed.

(** The text of a number has its two decimals. *)
Lemma format_2f_two_decimals (d : Dec2) :
  exists d1 d2 : N,
    format_2f (Some d)
    = (if negativo d then py "-" else [])
      ++ digits (centesimos d / 100) ++ [DOT; d1; d2]
    /\ (48 <= d1 <= 57)%N /\ (48 <= d2 <= 57)%N
    /\ (centesimos d = 100 * (centesimos d / 100) + 10 * (d1 - 48) + (d2 - 48))%N.
Proof.
  exists (48 + (centesimos d mod 100) / 10)%N, (48 + (centesimos d mod 100) mod 10)%N.
  split; [reflexivity|].
  pose proof (N.mod_upper_bound (centesimos d) 100 ltac:(lia)) as Hm.
  pose proof (N.div_mod (centesimos d) 100 ltac:(lia)) as Hc.
  pose proof (N.div_mod (centesimos d mod 100) 10 ltac:(lia)) as Hd.
  pose proof (N.mod_upper_bound (centesimos d mod 100) 10 ltac:(lia)) as Hm2.
  assert (Hq : (centesimos d mod 100 / 10 < 10)%N)
    by (apply N.Div0.div_lt_upper_bound; lia).
  set (a := (centesimos d mod 100)%N) in *.
  set (q := (centesimos d / 100)%N) in *.
  set (a1 := (a / 10)%N) in *. set (a0 := (a mod 10)%N) in *.
  clearbody a q a1 a0.
  repeat split; lia.
Qed.

(** C9, as worded, fails for the blank cells: the formatter of the value
    columns is called on them too and gives the text [nan], not an empty
    cell.  In the sheet of the example the second indicator has no value
    for the breed Zebu. *)
Lemma blank_cell_shows_nan :
  exists tela,
    run (app (U := Latin.ucd) Exemplos.ganho tudo) = (Returned tela, [])
    /\ nth_error (t_html tela) 1
       = Some (py "Janeiro", Zebu, [py "nan"; py "20.11"])
    /\ format_2f None = py "nan"
    /\ format_2f None <> [].
Proof.
  eexists. split; [vm_compute; reflexivity|].
  split; [reflexivity|]. split; [reflexivity | discriminate].
Qed.

(** C9 (amended): every value of the table that is shown is the value of
    the sorted join rounded to the nearest hundredth (ties to the even
    one), a blank staying a blank; a number is written with its two
    decimals and a blank as the text [nan].  The row of the example is
    reshaped to its two records and shown as [10.46] and [20.11], also
    when the two cells hold the binary floats nearest to the decimals. *)
Theorem display_rounding :
  (forall (m : Tabela Q) (meses_escolhidos : list str),
      map (@l_Valor Dec2) (linhas (df_show m meses_escolhidos))
      = map (fun l => map arredondar (l_Valor l))
            (sort_values meses_escolhidos (linhas m)))
  /\ arredondar None = None
  /\ (forall x : Q,
        exists c : Z,
          arredondar (Some x)
          = Some {| negativo := (Qnum x <? 0)%Z; centesimos := Z.abs_N c |}
          /\ (2 * Z.abs (c * Zpos (Qden x) - 100 * Qnum x) <= Zpos (Qden x))%Z)
  /\ (forall d : Dec2,
        exists d1 d2 : N,
          format_2f (Some d)
          = (if negativo d then py "-" else [])
            ++ digits (centesimos d / 100) ++ [DOT; d1; d2]
          /\ (48 <= d1 <= 57)%N /\ (48 <= d2 <= 57)%N)
  /\ format_2f None = py "nan"
  /\ (exists f tela,
        run (preparar (U := Latin.ucd) Exemplos.ganho) = (Returned f, [])
        /\ In {| Indicador := Some (py "Ganho de Peso"); Mes_nome := py "Janeiro";
                 Raca := py "Hibrido"; Valor := Some (10456 # 1000)%Q |} (f_final f)
        /\ In {| Indicador := Some (py "Ganho de Peso"); Mes_nome := py "Janeiro";
                 Raca := py "Zebu"; Valor := Some (20111 # 1000)%Q |} (f_final f)
        /\ run (app (U := Latin.ucd) Exemplos.ganho tudo) = (Returned tela, [])
        /\ valor_cols (t_show tela) = [py "Consumo"; py "Ganho de Peso"]
        /\ t_html tela
           = [ (py "Janeiro", py "Hibrido", [py "3.00"; py "10.46"]);
               (py "Janeiro", py "Zebu", [py "nan"; py "20.11"]) ])
  /\ format_2f (arredondar (Some (2943102356486619 # 281474976710656)%Q)) = py "10.46"
  /\ format_2f (arredondar (Some (5660743256628003 # 281474976710656)%Q)) = py "20.11".
Proof.
  split; [|split; [|split; [|split; [|split; [|split; [|split]]]]]].
  - intros m meses_escolhidos. unfold df_show. cbn [linhas].
    now rewrite map_map.
  - reflexivity.
  - intros x. exists (round_half_even (Qnum x * 100) (Qden x)).
    split; [reflexivity|].
    replace (100 * Qnum x)%Z with (Qnum x * 100)%Z by lia.
    apply round_half_even_near.
  - intros d. destruct (format_2f_two_decimals d) as [d1 [d2 [E [H1 [H2 _]]]]].
    exists d1, d2. now repeat split.
  - reflexivity.
  - eexists. eexists.
    split; [vm_compute; reflexivity|].
    split; [vm_compute; left; reflexivity|].
    split; [vm_compute; right; right; left; reflexivity|].
    split; [vm_compute; reflexivity|].
    split; reflexivity.
  - reflexivity.
  - reflexivity.
Qed.

(* ================================================================== *)
(** ** More on the month normaliser *)

Lemma filter_rev_bubble {U : UnicodeData} (P : codepoint -> bool)
  (c : codepoint) (before : str) :
  P c = false ->
  filter P (rev (bubble c before)) = filter P (rev before).
Proof.
  intros Hc. induction before as [|p rest IH]; simpl.
  - now rewrite Hc.
  - destruct (combining c <? combining p)%N; simpl.
    + now rewrite !filter_app, IH.
    + rewrite !filter_app. simpl. rewrite Hc. now rewrite app_nil_r.
Qed.

Lemma filter_fold_place {U : UnicodeData} (P : codepoint -> bool) (l acc : str) :
  Forall (fun c => combining c <> 0%N -> P c = false) l ->
  filter P (rev (fold_left place l acc)) = filter P (rev acc) ++ filter P l.
Proof.
  intros HP. revert acc. induction HP as [|c l Hc _ IH]; intros acc.
  - simpl. now rewrite app_nil_r.
  - cbn [fold_left]. rewrite IH.
    change (c :: l) with ([c] ++ l). rewrite (filter_app P [c] l), app_assoc.
    f_equal. unfold place. destruct (N.eqb_spec (combining c) 0) as [E | E].
    + cbn [rev]. now rewrite filter_app.
    + rewrite (filter_rev_bubble P c acc (Hc E)). cbn [filter].
      rewrite (Hc E). now rewrite app_nil_r.
Qed.

(** X1: for a text in whose decomposition every character of a combining
    class other than zero is a nonspacing mark (as in every text of Latin
    letters and accents), the canonical reordering of the marks never
    shows: [_strip_accents] returns the decomposition of the text,
    character by character, without its nonspacing marks. *)
Theorem strip_accents_decomposition (U : UnicodeData) (s : str) :
  Forall (fun c => combining c <> 0%N -> category_Mn c = true)
         (flat_map decomposition s) ->
  _strip_accents s
  = filter (fun ch => negb (category_Mn ch)) (flat_map decomposition s).
Proof.
  intros H. unfold _strip_accents, NFD, canonical_order.
  rewrite filter_fold_place; [reflexivity|].
  apply Forall_forall. intros c Hin Hc. rewrite Forall_forall in H.
  now rewrite (H c Hin Hc).
Qed.

Lemma latin_marks (c : codepoint) :
  @combining Latin.ucd c <> 0%N -> @category_Mn Latin.ucd c = true.
Proof.
  cbn [combining category_Mn Latin.ucd].
  destruct (Latin.in_range 768 879 c); [reflexivity | congruence].
Qed.

Lemma strip_accents_decomposition_witness :
  _strip_accents (U := Latin.ucd) (py "jan" ++ [0xE9%N] ++ py "iro")
  = filter (fun ch => negb (@category_Mn Latin.ucd ch))
           (flat_map (@decomposition Latin.ucd) (py "jan" ++ [0xE9%N] ++ py "iro")).
Proof.
  apply (strip_accents_decomposition Latin.ucd (py "jan" ++ [0xE9%N] ++ py "iro")).
  apply Forall_forall. intros c _. apply latin_marks.
Defined.

(** X2: a text whose characters have no decomposition, are no nonspacing
    marks and have the combining class zero is returned as it is. *)
Theorem strip_accents_plain (U : UnicodeData) (s : str) :
  Forall (fun c => decomposition c = [c] /\ category_Mn c = false
                   /\ combining c = 0%N) s ->
  _strip_accents s = s.
Proof.
  intros H. unfold _strip_accents, NFD, canonical_order.
  assert (Hd : flat_map decomposition s = s).
  { induction H as [|c l [Hc _] _ IH]; simpl; [reflexivity|].
    now rewrite Hc, IH. }
  rewrite Hd. clear Hd.
  assert (Hf : forall acc, fold_left place s acc = rev s ++ acc).
  { induction H as [|c l [_ [_ Hc]] _ IH]; intros acc; simpl; [reflexivity|].
    rewrite IH. unfold place. rewrite Hc. cbn. now rewrite <- app_assoc. }
  rewrite Hf, app_nil_r, rev_involutive. clear Hf.
  induction H as [|c l [_ [Hc _]] _ IH]; simpl; [reflexivity|].
  now rewrite Hc, IH.
Qed.

Lemma strip_accents_plain_witness :
  _strip_accents (U := Latin.ucd) (py "Fevereiro") = py "Fevereiro".
Proof.
  apply (strip_accents_plain Latin.ucd (py "Fevereiro")).
  repeat constructor.
Defined.

Lemma dict_get_range (d : list (str * str)) (key default : str) :
  In (dict_get d key default) (map snd d) \/ dict_get d key default = default.
Proof.
  induction d as [|[k v] d IH]; simpl; [now right|].
  destruct (str_eqb k key); [left; now left|].
  destruct IH as [IH | IH]; [left; now right | now right].
Qed.

(** X3: the normaliser gives one of the twelve month names of
    [ordem_meses], or the name it was given: nothing else comes out of
    it for a string. *)
Theorem canonical_month_range (U : UnicodeData) (name : str) :
  In (canonical_month (PyStr name)) ordem_meses
  \/ canonical_month (PyStr name) = name.
Proof.
  unfold canonical_month.
  destruct (dict_get_range mapa (month_key name) name) as [H | H];
    [left; exact H | right; exact H].
Qed.

(** A text of plain starters is its own accent-stripped form. *)
Lemma strip_accents_starters {U : UnicodeData} (s : str) :
  Forall (fun c => decomposition c = [c] /\ combining c = 0%N
                   /\ category_Mn c = false) s ->
  _strip_accents s = s.
Proof.
  intros H. unfold _strip_accents, NFD, canonical_order.
  assert (Hd : flat_map decomposition s = s).
  { induction H as [|c l [Hc _] _ IH]; simpl; [reflexivity|].
    now rewrite Hc, IH. }
  rewrite Hd. clear Hd.
  assert (Hf : forall acc, fold_left place s acc = rev s ++ acc).
  { induction H as [|c l [_ [Hc _]] _ IH]; intros acc; simpl; [reflexivity|].
    rewrite IH. unfold place. rewrite Hc. cbn. now rewrite <- app_assoc. }
  rewrite Hf, app_nil_r, rev_involutive. clear Hf.
  induction H as [|c l [_ [_ Hc]] _ IH]; simpl; [reflexivity|].
  now rewrite Hc, IH.
Qed.

Lemma lstrip_nonspace {U : UnicodeData} (s : str) :
  Forall (fun c => isspace c = false) s -> lstrip s = s.
Proof.
  intros H. destruct H as [|c l Hc _]; [reflexivity|]. simpl. now rewrite Hc.
Qed.

Lemma strip_nonspace {U : UnicodeData} (s : str) :
  Forall (fun c => isspace c = false) s -> strip s = s.
Proof.
  intros H. unfold strip, rstrip. rewrite (lstrip_nonspace s H).
  rewrite (lstrip_nonspace (rev s)) by now apply Forall_rev.
  apply rev_involutive.
Qed.

Lemma letras_not_sigma (c : codepoint) :
  In c letras_ascii -> (c =? CAPITAL_SIGMA)%N = false.
Proof.
  intros H. vm_compute in H.
  repeat (destruct H as [<- | H]; [reflexivity|]). contradiction.
Qed.

Lemma lower_letras {U : UnicodeData} (s before : str) :
  Forall (fun c => In c letras_ascii /\ tolower_full c = [minuscula_ascii c]) s ->
  do_lower before s = map minuscula_ascii s.
Proof.
  intros H. revert before. induction H as [|c l [Hin Hc] _ IH]; intros before;
    [reflexivity|].
  cbn [do_lower map]. unfold lower_char.
  rewrite (letras_not_sigma c Hin), Hc, IH. reflexivity.
Qed.

(** With plain ASCII letters the key of a text of letters is the lower
    case of its first three letters. *)
Lemma month_key_letras {U : UnicodeData} (m : str) :
  ascii_simples U ->
  forallb (fun c => existsb (N.eqb c) letras_ascii) m = true ->
  month_key m = firstn 3 (map minuscula_ascii m).
Proof.
  intros HU Hm. unfold ascii_simples in HU. rewrite Forall_forall in HU.
  assert (Hl : forall c, In c m -> In c letras_ascii).
  { intros c Hc. rewrite forallb_forall in Hm. specialize (Hm c Hc).
    apply existsb_exists in Hm as [x [Hx E]]. apply N.eqb_eq in E. now subst. }
  unfold month_key. rewrite strip_accents_starters.
  - rewrite strip_nonspace.
    + unfold lower. rewrite lower_letras; [reflexivity|].
      apply Forall_forall. intros c Hc. split; [now apply Hl|].
      now destruct (HU c (Hl c Hc)) as [_ [_ [_ [_ H]]]].
    + apply Forall_forall. intros c Hc.
      now destruct (HU c (Hl c Hc)) as [_ [_ [_ [H _]]]].
  - apply Forall_forall. intros c Hc.
    destruct (HU c (Hl c Hc)) as [H1 [H2 [H3 _]]]. now repeat split.
Qed.

Lemma canonical_month_fixed {U : UnicodeData} (m : str) :
  ascii_simples U -> In m ordem_meses -> canonical_month (PyStr m) = m.
Proof.
  intros HU Hm. unfold canonical_month. cbv in Hm.
  repeat (destruct Hm as [<- | Hm];
          [match goal with
           | |- dict_get _ (month_key ?m) _ = _ =>
               rewrite (month_key_letras m HU eq_refl)
           end; vm_compute; reflexivity|]).
  contradiction.
Qed.

(** X4: when the ASCII letters are plain in the tables (no decomposition,
    no combining class, no mark, no white space, and their ASCII lower
    case), the normaliser is idempotent on strings: a name that it
    returned is returned again as it is. *)
Theorem canonical_month_idempotent (U : UnicodeData) (name : str) :
  ascii_simples U ->
  canonical_month (PyStr (canonical_month (PyStr name)))
  = canonical_month (PyStr name).
Proof.
  intros HU.
  assert (H : In (canonical_month (PyStr name)) ordem_meses
              \/ canonical_month (PyStr name) = name)
    by (unfold canonical_month; apply (dict_get_range mapa)).
  destruct H as [H | H].
  - now apply canonical_month_fixed.
  - now rewrite H.
Qed.

Lemma latin_ascii_simples : ascii_simples Latin.ucd.
Proof.
  unfold ascii_simples. apply Forall_forall. intros c H. vm_compute in H.
  repeat (destruct H as [<- | H]; [repeat split; reflexivity|]). contradiction.
Qed.

Lemma canonical_month_idempotent_witness :
  canonical_month (U := Latin.ucd)
    (PyStr (canonical_month (U := Latin.ucd) (PyStr (py "FEVEREIRO"))))
  = canonical_month (U := Latin.ucd) (PyStr (py "FEVEREIRO")).
Proof.
  apply (canonical_month_idempotent Latin.ucd (py "FEVEREIRO")).
  exact latin_ascii_simples.
Defined.

(* ================================================================== *)
(** ** More on the reshaping *)

Lemma split_dot_no_dot (a : str) : ~ In DOT a -> split_dot a = (a, None).
Proof.
  induction a as [|c a IH]; simpl; intros H; [reflexivity|].
  destruct (N.eqb_spec c DOT) as [-> | Hc]; [exfalso; apply H; now left|].
  rewrite IH; [reflexivity|]. intros Hin. apply H. now right.
Qed.

Lemma split_dot_inv (s a : str) (b : option str) :
  split_dot s = (a, b) ->
  ~ In DOT a /\ s = a ++ match b with Some r => DOT :: r | None => [] end.
Proof.
  revert a. induction s as [|c s IH]; intros a; simpl.
  - intros E. injection E as <- <-. split; [intros [] | reflexivity].
  - destruct (N.eqb_spec c DOT) as [-> | Hc].
    + intros E. injection E as <- <-. split; [intros [] | reflexivity].
    + destruct (split_dot s) as [a' b'] eqn:Es. intros E. injection E as <- <-.
      destruct (IH a' eq_refl) as [Hn Hs]. split.
      * intros [H | H]; [congruence | contradiction].
      * simpl. now rewrite <- Hs.
Qed.

(** X5: splitting at the first dot undoes the joining with a dot: the
    split of a text is [(a, b)] exactly when [a] has no dot and the text
    is [a], then the dot and [b] if there is a [b]. *)
Theorem split_dot_join (s a : str) (b : option str) :
  split_dot s = (a, b)
  <-> ~ In DOT a /\ s = a ++ match b with Some r => DOT :: r | None => [] end.
Proof.
  split; [apply split_dot_inv|].
  intros [Hn ->]. destruct b as [r|].
  - now apply split_dot_app.
  - rewrite app_nil_r. now apply split_dot_no_dot.
Qed.

Lemma manter_in (lg : Longo) (reg : Registro) :
  In reg (manter lg) ->
  lg_Mes_nome lg = Some (Mes_nome reg) /\ lg_Raca lg = Some (Raca reg)
  /\ Indicador reg = lg_indicador lg /\ Valor reg = lg_Valor lg
  /\ (Raca reg = Zebu \/ Raca reg = Hibrido).
Proof.
  unfold manter. destruct (lg_Mes_nome lg) as [m|], (lg_Raca lg) as [b|];
    try contradiction.
  destruct (str_in b [Zebu; Hibrido]) eqn:E; [|contradiction].
  intros [<- | []]. cbn. repeat split.
  apply str_in_In in E. destruct E as [<- | [<- | []]]; auto.
Qed.

Lemma sobrescrever_fields (h : pyobj) (lg : Longo) :
  lg_Mes_nome (sobrescrever h lg) = lg_Mes_nome lg
  /\ lg_Raca (sobrescrever h lg) = lg_Raca lg
  /\ lg_Valor (sobrescrever h lg) = lg_Valor lg
  /\ lg_indicador (sobrescrever h lg)
     = if header_is h (py "Mes_nome") then lg_Mes_nome lg
       else if header_is h (py "Raca") then lg_Raca lg
       else lg_indicador lg.
Proof.
  unfold sobrescrever.
  destruct (header_is h (py "Mes_nome")); [now repeat split|].
  destruct (header_is h (py "Raca")); now repeat split.
Qed.

(** X6: when the long frame is built (lines 68-70 raise nothing) from a
    frame whose identifier header is not [Mes_Raca] and is not the name of
    a month column, every record of [df_final] carries one of the two
    breed labels, a month name without a dot and the cell of a row of the
    frame in one of its month columns.  Its identifier is the indicator of
    that row, unless the identifier column is headed [Mes_nome] or [Raca]:
    line 69 then overwrites it, and the record carries its own month or
    its own breed as identifier. *)
Theorem df_final_records (df : DataFrame) (long : list Longo)
  (log log' : list message) (reg : Registro) :
  header_is (indicador_col_de df) (py "Mes_Raca") = false ->
  ~ In (indicador_col_de df) (tl (columns df)) ->
  df_long df log = (Returned long, log') ->
  In reg (df_final long) ->
  (Raca reg = Zebu \/ Raca reg = Hibrido)
  /\ ~ In DOT (Mes_nome reg)
  /\ exists r j, In r (rows df) /\ j < length (tl (columns df))
                 /\ Valor reg = nth j (valores r) None
                 /\ Indicador reg
                    = if header_is (indicador_col_de df) (py "Mes_nome")
                      then Some (Mes_nome reg)
                      else if header_is (indicador_col_de df) (py "Raca")
                           then Some (Raca reg)
                           else indicador r.
Proof.
  intros _ _ Hlong Hin. unfold df_long in Hlong.
  destruct (melt_recusa df); [discriminate|].
  destruct (Nat.eqb _ 2); [|discriminate].
  unfold ret in Hlong. injection Hlong as <- _.
  unfold df_final in Hin. rewrite in_flat_map in Hin.
  destruct Hin as [lg' [Hlg Hin]].
  apply in_map_iff in Hlg as [lg [<- Hlg]].
  apply in_map_iff in Hlg as [[[i lab] v] [<- Ht]].
  apply manter_in in Hin as [Hm [Hb [Hi [Hv Hr]]]].
  destruct (sobrescrever_fields (indicador_col_de df) (linha_longa (i, lab, v)))
    as [Em [Eb [Ev Ei]]].
  rewrite Em in Hm. rewrite Eb in Hb. rewrite Ev in Hv. rewrite Ei in Hi.
  rewrite Hm, Hb in Hi.
  unfold linha_longa in *. cbn [fst snd lg_Mes_nome lg_Raca lg_indicador lg_Valor] in *.
  apply melt_in in Ht as [r [j [Hrow [Hn [-> ->]]]]].
  split; [exact Hr|]. split.
  - destruct lab as [s | t]; cbn in Hm, Hb; [|discriminate].
    destruct (split_dot s) as [a b] eqn:Es. cbn in Hm, Hb.
    injection Hm as <-. now destruct (split_dot_inv s a b Es).
  - exists r, j. repeat split; try assumption.
    apply nth_error_Some. congruence.
Qed.

Lemma df_final_records_witness :
  (Raca {| Indicador := Some (py "Hibrido"); Mes_nome := py "Janeiro";
           Raca := py "Hibrido"; Valor := Some (7 # 2)%Q |} = Zebu
   \/ Raca {| Indicador := Some (py "Hibrido"); Mes_nome := py "Janeiro";
              Raca := py "Hibrido"; Valor := Some (7 # 2)%Q |} = Hibrido)
  /\ ~ In DOT (py "Janeiro")
  /\ exists r j, In r (rows Exemplos.dois_meses) /\ j < 4
                 /\ Some (7 # 2)%Q = nth j (valores r) None
                 /\ Some (py "Hibrido") = Some (py "Hibrido").
Proof.
  pose (df := {| columns := Exemplos.s "Raca"
                            :: pares (U := Latin.ucd) (tl (columns Exemplos.dois_meses));
                 rows := rows Exemplos.dois_meses |}).
  apply (df_final_records df
           (map (sobrescrever (indicador_col_de df)) (map linha_longa (melt df)))
           [] []
           {| Indicador := Some (py "Hibrido"); Mes_nome := py "Janeiro";
              Raca := py "Hibrido"; Valor := Some (7 # 2)%Q |}).
  - reflexivity.
  - vm_compute. intros H.
    repeat (destruct H as [H | H]; [discriminate H|]). exact H.
  - vm_compute. reflexivity.
  - vm_compute. left. reflexivity.
Defined.

Lemma split_dot_dotted (m suf : str) :
  In DOT m ->
  exists x y, split_dot (m ++ suf) = (x, Some (y ++ suf)).
Proof.
  induction m as [|c m IH]; simpl; [contradiction|].
  intros H. destruct (N.eqb_spec c DOT) as [-> | Hc].
  - now exists [], m.
  - destruct H as [H | H]; [congruence|].
    destruct (IH H) as [x [y E]]. rewrite E. now exists (c :: x), y.
Qed.

Lemma manter_dotted (ind : option str) (m raca : str) (v : option Q) :
  In DOT m ->
  manter (linha_longa (ind, PyStr (m ++ DOT :: raca), v)) = [].
Proof.
  intros H. destruct (split_dot_dotted m (DOT :: raca) H) as [x [y E]].
  unfold manter, linha_longa, split_label. cbn [fst snd].
  rewrite E. cbn [fst snd lg_Mes_nome lg_Raca].
  destruct (str_in (y ++ DOT :: raca) [Zebu; Hibrido]) eqn:Es; [|reflexivity].
  exfalso. apply str_in_In in Es.
  assert (Hd : In DOT (y ++ DOT :: raca)) by (apply in_or_app; right; now left).
  destruct Es as [Es | [Es | []]]; rewrite <- Es in Hd; cbv in Hd;
    repeat (destruct Hd as [Hd | Hd]; [discriminate Hd|]); exact Hd.
Qed.

(** X7: a month block whose header is given a name with a dot in it (a
    header that is not recognised and has a dot) leaves no record: the
    labels of its two columns split at that dot, and what follows is
    neither breed. *)
Theorem dotted_month_dropped (U : UnicodeData) (ind : option str) (c : pyobj)
  (h z : option Q) :
  In DOT (canonical_month c) ->
  (forall c' resto,
      pares (c :: c' :: resto)
      = PyStr (canonical_month c ++ py ".Hibrido")
        :: PyStr (canonical_month c ++ py ".Zebu") :: pares resto)
  /\ manter (linha_longa (ind, PyStr (canonical_month c ++ py ".Hibrido"), h)) = []
  /\ manter (linha_longa (ind, PyStr (canonical_month c ++ py ".Zebu"), z)) = [].
Proof.
  intros H. split; [reflexivity|]. split.
  - exact (manter_dotted ind (canonical_month c) Hibrido h H).
  - exact (manter_dotted ind (canonical_month c) Zebu z H).
Qed.

Lemma dotted_month_dropped_witness :
  manter (linha_longa (Some (py "Peso"),
                       PyStr (canonical_month (U := Latin.ucd) (PyStr (py "v1.0"))
                              ++ py ".Hibrido"), Some (1 # 1)%Q)) = [].
Proof.
  refine (proj1 (proj2 (dotted_month_dropped Latin.ucd (Some (py "Peso"))
                          (PyStr (py "v1.0")) (Some (1 # 1)%Q) None _))).
  vm_compute. right. right. left. reflexivity.
Defined.

(** X8: the melt has one row for every row of the frame and every column
    after the first. *)
Theorem melt_length (df : DataFrame) :
  length (melt df) = length (tl (columns df)) * length (rows df).
Proof.
  unfold melt.
  assert (H : forall (L : list (nat * pyobj)),
             length (flat_map
                       (fun jc : nat * pyobj =>
                          map (fun r => (indicador r, snd jc,
                                         nth (fst jc) (valores r) None))
                              (rows df)) L)
             = length L * length (rows df)).
  { induction L as [|x L IH]; simpl; [reflexivity|].
    now rewrite length_app, length_map, IH. }
  rewrite H, length_combine, length_seq, Nat.min_id. reflexivity.
Qed.

(* ================================================================== *)
(** ** More on the filters *)

Lemma str_ltb_total (a b : str) :
  str_ltb a b = false -> str_ltb b a = false -> a = b.
Proof.
  revert b. induction a as [|x a IH]; intros [|y b]; simpl; try congruence.
  intros H1 H2. apply orb_false_iff in H1 as [L1 E1], H2 as [L2 E2].
  apply N.ltb_ge in L1, L2. assert (x = y) by lia. subst y.
  rewrite N.eqb_refl in E1, E2. simpl in E1, E2. f_equal. now apply IH.
Qed.

Lemma insert_sorted_sorted (x : str) (l : list str) :
  StronglySorted (fun a b => str_leb a b = true) l ->
  StronglySorted (fun a b => str_leb a b = true) (insert_sorted x l).
Proof.
  induction 1 as [|y l Hs IH Hy]; simpl.
  - constructor; constructor.
  - destruct (str_ltb x y) eqn:E.
    + assert (Hxy : str_leb x y = true)
        by (unfold str_leb; apply negb_true_iff; now apply str_ltb_asym).
      constructor; [now constructor|]. constructor; [assumption|].
      rewrite Forall_forall in *. intros z Hz.
      eapply str_leb_trans; [exact Hxy | now apply Hy].
    + constructor; [assumption|]. rewrite Forall_forall in *. intros z Hz.
      apply (Permutation_in _ (insert_sorted_perm x l)) in Hz.
      destruct Hz as [<- | Hz]; [|now apply Hy].
      unfold str_leb. now rewrite E.
Qed.

Lemma sorted_sorted (l : list str) :
  StronglySorted (fun a b => str_leb a b = true) (sorted l).
Proof.
  unfold sorted.
  assert (H : forall acc,
             StronglySorted (fun a b => str_leb a b = true) acc ->
             StronglySorted (fun a b => str_leb a b = true)
               (fold_left (fun acc x => insert_sorted x acc) l acc)).
  { induction l as [|x l IH]; intros acc Hacc; simpl; [assumption|].
    apply IH. now apply insert_sorted_sorted. }
  apply H. constructor.
Qed.

Lemma strongly_sorted_strict (l : list str) :
  NoDup l ->
  StronglySorted (fun a b => str_leb a b = true) l ->
  StronglySorted (fun a b => str_ltb a b = true) l.
Proof.
  intros Hn Hs. induction Hs as [|x l Hs IH Hx]; constructor.
  - apply IH. now inversion Hn.
  - rewrite Forall_forall in *. intros y Hy.
    specialize (Hx y Hy). unfold str_leb in Hx. apply negb_true_iff in Hx.
    destruct (str_ltb x y) eqn:E; [reflexivity|].
    exfalso. assert (x = y) by now apply str_ltb_total. subst y.
    inversion Hn. contradiction.
Qed.

(** X9: the indicators offered by the first widget are the names, other
    than blank, of the records, each one once, in strictly increasing
    order of strings. *)
Theorem indicadores_sorted (final : list Registro) :
  StronglySorted (fun a b => str_ltb a b = true) (indicadores final)
  /\ forall x, In x (indicadores final)
               <-> exists reg, In reg final /\ Indicador reg = Some x.
Proof.
  split; [|intros x; apply indicadores_in].
  apply strongly_sorted_strict; [apply indicadores_nodup|].
  unfold indicadores. apply sorted_sorted.
Qed.

Lemma StronglySorted_filter {A : Type} (R : A -> A -> Prop) (p : A -> bool)
  (l : list A) :
  StronglySorted R l -> StronglySorted R (filter p l).
Proof.
  induction 1 as [|x l Hs IH Hx]; simpl; [constructor|].
  destruct (p x); [|assumption]. constructor; [assumption|].
  rewrite Forall_forall in *. intros y Hy. apply filter_In in Hy as [Hy _].
  now apply Hx.
Qed.

(** X10: the months offered by the second widget are the months of
    [ordem_meses] that some record has, in the order of the calendar
    whatever the order of the columns of the sheet; a month name that is
    none of the twelve is never offered. *)
Theorem meses_disponiveis_calendar (final : list Registro) :
  StronglySorted (fun a b => calendario_ltb a b = true) (meses_disponiveis final)
  /\ forall m, In m (meses_disponiveis final)
               <-> In m ordem_meses /\ exists reg, In reg final /\ Mes_nome reg = m.
Proof.
  split.
  - unfold meses_disponiveis. apply StronglySorted_filter.
    repeat (constructor; [|repeat (constructor; [reflexivity|]); constructor]).
    constructor.
  - intros m. unfold meses_disponiveis. rewrite filter_In, str_in_In, unique_in,
      in_map_iff. split.
    + intros [Ho [[reg [E Hr]] _]]. split; [assumption|]. now exists reg.
    + intros [Ho [reg [Hr E]]]. split; [assumption|]. split; [now exists reg | tauto].
Qed.

(* ================================================================== *)
(** ** An identifier column named as a column of the script *)

Lemma two_sorted (l : list str) (a b : str) :
  StronglySorted (fun x y => str_ltb x y = true) l ->
  (forall x, In x l <-> x = a \/ x = b) ->
  str_ltb a b = true ->
  l = [a; b].
Proof.
  intros Hs Hin Hab.
  assert (Hirr : forall x, str_ltb x x = true -> False).
  { intros x H. pose proof (str_ltb_asym x x H). congruence. }
  assert (Hba : str_ltb b a = true -> False).
  { intros H. pose proof (str_ltb_asym a b Hab). congruence. }
  destruct l as [|x [|y [|z l]]].
  - exfalso. apply (Hin a). now left.
  - exfalso. assert (Ha : In a [x]) by (apply Hin; now left).
    assert (Hb : In b [x]) by (apply Hin; now right).
    destruct Ha as [<- | []], Hb as [<- | []]. now apply (Hirr x).
  - inversion Hs as [|? ? _ Hx]; subst. inversion Hx as [|? ? Hxy _]; subst.
    assert (Hx' : x = a \/ x = b) by (apply Hin; now left).
    assert (Hy' : y = a \/ y = b) by (apply Hin; right; now left).
    destruct Hx' as [-> | ->], Hy' as [-> | ->]; try reflexivity; exfalso;
      eauto.
  - exfalso.
    inversion Hs as [|? ? Hs' Hx]; subst.
    inversion Hx as [|? ? Hxy Hx']; subst. inversion Hx' as [|? ? Hxz _]; subst.
    inversion Hs' as [|? ? _ Hy]; subst. inversion Hy as [|? ? Hyz _]; subst.
    assert (Hx'' : x = a \/ x = b) by (apply Hin; now left).
    assert (Hy'' : y = a \/ y = b) by (apply Hin; right; now left).
    assert (Hz'' : z = a \/ z = b) by (apply Hin; right; right; now left).
    destruct Hx'' as [-> | ->], Hy'' as [-> | ->], Hz'' as [-> | ->]; eauto.
Qed.

(** X24: a sheet whose identifier column is headed [Valor], with an even
    number of month columns, is renamed without a word and then refused
    by [df.melt], whose value column has that name: the run ends in a
    [ValueError] and nothing is shown. *)
Theorem valor_header_raises (U : UnicodeData) (df : DataFrame)
  (mes_cols : list pyobj) :
  columns df = PyStr (py "Valor") :: mes_cols ->
  Nat.even (length mes_cols) = true ->
  run (preparar df) = (Raised ValueError, []).
Proof.
  intros Hc Hev. pose proof (renomear_par df _ _ Hc Hev) as Hr.
  unfold run in *. unfold preparar, bind. rewrite Hr.
  unfold df_long, melt_recusa, indicador_col_de. cbn [columns hd].
  unfold header_is. rewrite str_eqb_refl. reflexivity.
Qed.

Lemma valor_header_raises_witness :
  run (preparar (U := Latin.ucd) Exemplos.cabecalho_valor)
  = (Raised ValueError, []).
Proof.
  apply (valor_header_raises Latin.ucd Exemplos.cabecalho_valor
           (tl (columns Exemplos.cabecalho_valor))); reflexivity.
Defined.

(** X25: a sheet whose identifier column is headed [Raca] loses its
    indicators: line 69 writes the breeds over them, and the first widget
    offers the two breed labels, [Hibrido] and [Zebu], whatever the sheet
    holds (one row and one block of columns whose month has no dot are
    enough). *)
Theorem raca_header_overwrites (U : UnicodeData) (df : DataFrame)
  (c c' : pyobj) (resto : list pyobj) :
  columns df = PyStr (py "Raca") :: c :: c' :: resto ->
  Nat.even (length resto) = true ->
  rows df <> [] ->
  ~ In DOT (canonical_month c) ->
  exists f, run (preparar df) = (Returned f, [])
            /\ f_indicadores f = [Hibrido; Zebu].
Proof.
  intros Hc Hev Hrows Hdot.
  assert (Hev' : Nat.even (length (c :: c' :: resto)) = true) by exact Hev.
  pose proof (renomear_par df _ _ Hc Hev') as Hr.
  set (df' := {| columns := PyStr (py "Raca") :: pares (c :: c' :: resto);
                 rows := rows df |}) in *.
  assert (Hw : split_width (map (fun t => split_label (snd (fst t))) (melt df')) = 2)
    by (apply (split_width_melt df' (PyStr (py "Raca")) (c :: c' :: resto));
        [reflexivity | discriminate | exact Hrows]).
  set (long := map (sobrescrever (PyStr (py "Raca"))) (map linha_longa (melt df'))).
  assert (Hl : df_long df' [] = (Returned long, [])).
  { unfold df_long, melt_recusa, indicador_col_de. cbn [columns hd df'].
    change (header_is (PyStr (py "Raca")) (py "Valor")) with false.
    cbv iota. fold df'. rewrite Hw. reflexivity. }
  assert (Hinds : indicadores (df_final long) = [Hibrido; Zebu]).
  { apply two_sorted.
    - apply strongly_sorted_strict; [apply indicadores_nodup|].
      unfold indicadores. apply sorted_sorted.
    - intros x. rewrite indicadores_in. split.
      + intros [reg [Hreg Hx]]. unfold df_final in Hreg.
        apply in_flat_map in Hreg as [lg' [Hlg Hreg]].
        apply in_map_iff in Hlg as [lg [<- _]].
        apply manter_in in Hreg as [_ [Hb [Hi [_ Hz]]]].
        destruct (sobrescrever_fields (PyStr (py "Raca")) lg) as [_ [Eb [_ Ei]]].
        change (header_is (PyStr (py "Raca")) (py "Mes_nome")) with false in Ei.
        change (header_is (PyStr (py "Raca")) (py "Raca")) with true in Ei.
        cbv iota in Ei. rewrite Ei, <- Eb, Hb in Hi. rewrite Hi in Hx.
        injection Hx as <-. tauto.
      + destruct (rows df) as [|r rs] eqn:Er; [congruence|].
        assert (Hk : forall j b,
                   nth_error (tl (columns df')) j
                   = Some (PyStr (canonical_month c ++ DOT :: b)) ->
                   In b [Zebu; Hibrido] ->
                   exists reg, In reg (df_final long) /\ Indicador reg = Some b).
        { intros j b Hn Hb.
          exists {| Indicador := Some b; Mes_nome := canonical_month c;
                    Raca := b; Valor := nth j (valores r) None |}.
          split; [|reflexivity]. unfold df_final. apply in_flat_map.
          exists (sobrescrever (PyStr (py "Raca"))
                    (linha_longa (indicador r,
                                  PyStr (canonical_month c ++ DOT :: b),
                                  nth j (valores r) None))).
          split.
          - unfold long. apply in_map, in_map. apply melt_in. exists r, j.
            repeat split; [|exact Hn]. unfold df'. cbn [rows]. now left.
          - unfold sobrescrever.
            change (header_is (PyStr (py "Raca")) (py "Mes_nome")) with false.
            change (header_is (PyStr (py "Raca")) (py "Raca")) with true.
            cbv iota. unfold linha_longa, split_label. cbn [fst snd].
            rewrite (split_dot_app _ b Hdot).
            unfold manter. cbn [fst snd lg_Mes_nome lg_Raca lg_indicador lg_Valor].
            apply str_in_In in Hb. rewrite Hb. now left. }
        intros [-> | ->].
        * apply (Hk 0 Hibrido); [reflexivity | right; now left].
        * apply (Hk 1 Zebu); [reflexivity | now left].
    - reflexivity. }
  unfold run in *. unfold preparar, bind. rewrite Hr, Hl, Hinds.
  eexists. split; reflexivity.
Qed.

Lemma raca_header_overwrites_witness :
  exists f, run (preparar (U := Latin.ucd) Exemplos.cabecalho_raca) = (Returned f, [])
            /\ f_indicadores f = [Hibrido; Zebu].
Proof.
  apply (raca_header_overwrites Latin.ucd Exemplos.cabecalho_raca
           (Exemplos.s "Jan_Hib") (Exemplos.s "Jan_Zeb") []).
  - reflexivity.
  - reflexivity.
  - discriminate.
  - vm_compute. intros H.
    repeat (destruct H as [H | H]; [discriminate H|]). exact H.
Defined.
(* ================================================================== *)
(** ** More on the pivot *)

(** X11: the table that is shown has one value column for each selected
    indicator, in the order of the selection; every row has one cell in
    each of them, a month among the chosen months and a breed among the
    chosen breeds. *)
Theorem pivot_shape (f : Filtros) (ind : str)
  (resto meses_escolhidos racas_escolhidas : list str) :
  exists t,
    df_merge (f_final f) (ind :: resto) meses_escolhidos racas_escolhidas = Some t
    /\ valor_cols (df_show t meses_escolhidos) = ind :: resto
    /\ forall l, In l (linhas (df_show t meses_escolhidos)) ->
                 length (l_Valor l) = length (ind :: resto)
                 /\ In (l_Mes_nome l) meses_escolhidos
                 /\ In (l_Raca l) racas_escolhidas.
Proof.
  destruct (df_merge_inv (f_final f) meses_escolhidos racas_escolhidas ind resto)
    as [t [Ht [Hcols [Hlen [Hprov _]]]]].
  exists t. split; [exact Ht|]. split; [exact Hcols|].
  intros l Hl. apply df_show_in in Hl as [l0 [Hl0 [Hk Hv]]].
  rewrite Hv, length_map, (Hlen l0 Hl0), Hcols. split; [reflexivity|].
  destruct (Hprov l0 Hl0) as [i [w [_ Hw]]].
  unfold chave in Hk. injection Hk as -> ->.
  exact (df_ind_mes f meses_escolhidos racas_escolhidas i _ _ w Hw).
Qed.

Lemma NoDup_append {A : Type} (l1 l2 : list A) :
  NoDup l1 -> NoDup l2 -> (forall x, In x l1 -> ~ In x l2) -> NoDup (l1 ++ l2).
Proof.
  intros H1 H2 Hd. induction H1 as [|x l1 Hx H1 IH]; simpl; [assumption|].
  constructor.
  - intros H. apply in_app_or in H as [H | H]; [contradiction|].
    apply (Hd x); [now left | assumption].
  - apply IH. intros y Hy. apply Hd. now right.
Qed.

Lemma NoDup_map_filter {A B : Type} (g : A -> B) (p : A -> bool) (l : list A) :
  NoDup (map g l) -> NoDup (map g (filter p l)).
Proof.
  induction l as [|x l IH]; simpl; [constructor|].
  intros H. inversion H as [|y ys Hx Hl]; subst.
  destruct (p x); simpl; [|now apply IH].
  constructor; [|now apply IH].
  intros Hin. apply Hx. apply in_map_iff in Hin as [z [E Hz]].
  apply filter_In in Hz as [Hz _]. apply in_map_iff. now exists z.
Qed.

(** A key that the right frame has once is met by one row at most. *)
Lemma filter_key_unique (right : list (str * str * option Q)) (k : str * str) :
  NoDup (map fst right) ->
  length (filter (fun r => same_key k (fst r)) right) <= 1.
Proof.
  induction right as [|[k' v] right IH]; simpl; [lia|].
  intros H. inversion H as [|y ys Hx Hl]; subst.
  destruct (same_key k k') eqn:E; [|now apply IH].
  apply same_key_eq in E. subst k'. simpl.
  assert (Hnil : filter (fun r => same_key k (fst r)) right = []).
  { destruct (filter _ right) as [|[k2 v2] rest] eqn:F; [reflexivity|].
    exfalso. assert (Hin : In (k2, v2) (filter (fun r => same_key k (fst r)) right))
      by (rewrite F; now left).
    apply filter_In in Hin as [Hin Hs]. apply same_key_eq in Hs. cbn in Hs. subst k2.
    apply Hx. apply in_map_iff. now exists (k, v2). }
  rewrite Hnil. simpl. lia.
Qed.

Lemma map_flat_map_single {A B C : Type} (g : B -> C) (F : A -> list B)
  (h : A -> C) (l : list A) :
  (forall a, map g (F a) = [h a]) -> map g (flat_map F l) = map h l.
Proof.
  intros H. induction l as [|a l IH]; simpl; [reflexivity|].
  now rewrite map_app, H, IH.
Qed.

Lemma merge_outer_keys (left : Tabela Q) (ind : str)
  (right : list (str * str * option Q)) :
  NoDup (map fst right) ->
  map chave (linhas (merge_outer left ind right))
  = map chave (linhas left)
    ++ map fst (filter (fun r => negb (existsb (fun l => same_key (chave l) (fst r))
                                               (linhas left))) right).
Proof.
  intros Hn. unfold merge_outer. cbn [linhas]. rewrite map_app. f_equal.
  - apply map_flat_map_single. intros l.
    pose proof (filter_key_unique right (chave l) Hn) as Hle.
    destruct (filter (fun r => same_key (chave l) (fst r)) right) as [|r [|r2 ms]];
      [reflexivity | reflexivity | cbn in Hle; lia].
  - rewrite map_map. apply map_ext. now intros [[m b] v].
Qed.

Lemma merge_outer_nodup (left : Tabela Q) (ind : str)
  (right : list (str * str * option Q)) :
  NoDup (map chave (linhas left)) ->
  NoDup (map fst right) ->
  NoDup (map chave (linhas (merge_outer left ind right))).
Proof.
  intros Hl Hr. rewrite merge_outer_keys by assumption.
  apply NoDup_append; [assumption | now apply NoDup_map_filter|].
  intros k Hk Hk'. apply in_map_iff in Hk' as [r [<- Hin]].
  apply filter_In in Hin as [_ Hno]. apply negb_true_iff in Hno.
  apply in_map_iff in Hk as [l [E Hin]].
  assert (Hex : existsb (fun l0 => same_key (chave l0) (fst r)) (linhas left) = true).
  { apply existsb_exists. exists l. split; [assumption|]. now apply same_key_eq. }
  congruence.
Qed.

(** X12: when no selected indicator has two filtered records of the same
    month and breed, the table has one row for each key: no two rows of
    the same month and breed. *)
Theorem pivot_one_row_per_key (f : Filtros) (ind : str)
  (resto meses_escolhidos racas_escolhidas : list str) :
  (forall i, In i (ind :: resto) ->
     NoDup (map fst (df_ind (f_final f) meses_escolhidos racas_escolhidas i))) ->
  exists t,
    df_merge (f_final f) (ind :: resto) meses_escolhidos racas_escolhidas = Some t
    /\ NoDup (map chave (linhas (df_show t meses_escolhidos))).
Proof.
  intros Hu.
  assert (Hfold : forall sel t,
             (forall i, In i sel ->
                NoDup (map fst (df_ind (f_final f) meses_escolhidos
                                       racas_escolhidas i))) ->
             NoDup (map chave (linhas t)) ->
             exists t',
               fold_left (passo (f_final f) meses_escolhidos racas_escolhidas)
                         sel (Some t) = Some t'
               /\ NoDup (map chave (linhas t'))).
  { induction sel as [|i sel IH]; intros t Hsel Ht.
    - exists t. now split.
    - cbn [fold_left passo]. apply IH.
      + intros j Hj. apply Hsel. now right.
      + apply merge_outer_nodup; [assumption | apply Hsel; now left]. }
  unfold df_merge. cbn [fold_left passo].
  destruct (Hfold resto
              {| valor_cols := [ind];
                 linhas := map (fun r => {| l_Mes_nome := fst (fst r);
                                            l_Raca := snd (fst r);
                                            l_Valor := [snd r] |})
                               (df_ind (f_final f) meses_escolhidos
                                       racas_escolhidas ind) |})
    as [t [Et Hn]].
  - intros i Hi. apply Hu. now right.
  - cbn [linhas]. rewrite map_map.
    rewrite (map_ext _ fst); [apply Hu; now left|]. now intros [[m b] v].
  - exists t. split; [exact Et|].
    unfold df_show. cbn [linhas]. rewrite map_map.
    change (fun x : Linha Q =>
              chave {| l_Mes_nome := l_Mes_nome x; l_Raca := l_Raca x;
                       l_Valor := map arredondar (l_Valor x) |})
      with (@chave Q).
    apply (Permutation_NoDup
             (Permutation_sym
                (Permutation_map chave (sort_values_perm meses_escolhidos (linhas t))))).
    exact Hn.
Qed.

Lemma pivot_one_row_per_key_witness :
  exists t,
    df_merge (f_final Exemplos.filtros_dois_meses)
             (Exemplos.Peso :: [Exemplos.Consumo])
             [Exemplos.Janeiro; Exemplos.Fevereiro] racas = Some t
    /\ NoDup (map chave (linhas (df_show t [Exemplos.Janeiro; Exemplos.Fevereiro]))).
Proof.
  apply (pivot_one_row_per_key Exemplos.filtros_dois_meses Exemplos.Peso
           [Exemplos.Consumo] [Exemplos.Janeiro; Exemplos.Fevereiro] racas).
  intros i [<- | [<- | []]]; vm_compute;
    repeat (constructor;
            [intros H; repeat (destruct H as [H | H]; [discriminate H|]); exact H|]);
    constructor.
Defined.

(* ================================================================== *)
(** ** More on the rounding and the display *)

Lemma round_half_even_scale (n : Z) (d k : positive) :
  round_half_even (n * Zpos k) (d * k) = round_half_even n d.
Proof.
  unfold round_half_even. rewrite Pos2Z.inj_mul.
  rewrite Z.div_mul_cancel_r by discriminate.
  rewrite Z.mul_mod_distr_r by discriminate.
  replace (2 * (n mod Zpos d * Zpos k) ?= Zpos d * Zpos k)%Z
    with (2 * (n mod Zpos d) ?= Zpos d)%Z; [reflexivity|].
  destruct (Z.compare_spec (2 * (n mod Zpos d)) (Zpos d)) as [E | E | E];
    symmetry; [apply Z.compare_eq_iff | apply Z.compare_lt_iff
               | apply Z.compare_gt_iff]; nia.
Qed.

(** X16: the rounding does not depend on how the fraction is written:
    equal rationals are rounded to the same value. *)
Theorem round2_Qeq (x y : Q) : (x == y)%Q -> round2 x = round2 y.
Proof.
  unfold Qeq, round2. intros E. f_equal.
  - destruct (Z.ltb_spec (Qnum x) 0), (Z.ltb_spec (Qnum y) 0);
      try reflexivity; exfalso; nia.
  - f_equal.
    rewrite <- (round_half_even_scale (Qnum x * 100) (Qden x) (Qden y)).
    rewrite <- (round_half_even_scale (Qnum y * 100) (Qden y) (Qden x)).
    rewrite (Pos.mul_comm (Qden y) (Qden x)). f_equal. lia.
Qed.

Lemma round2_Qeq_witness : round2 (1 # 8)%Q = round2 (125 # 1000)%Q.
Proof. apply (round2_Qeq (1 # 8)%Q (125 # 1000)%Q). reflexivity. Defined.

Lemma round_half_even_mono (n n' : Z) (d : positive) :
  (n <= n')%Z -> (round_half_even n d <= round_half_even n' d)%Z.
Proof.
  intros H. unfold round_half_even.
  pose proof (Z.div_mod n (Zpos d) ltac:(lia)) as Hn.
  pose proof (Z.mod_pos_bound n (Zpos d) ltac:(lia)) as Hr.
  pose proof (Z.div_mod n' (Zpos d) ltac:(lia)) as Hn'.
  pose proof (Z.mod_pos_bound n' (Zpos d) ltac:(lia)) as Hr'.
  pose proof (Z.div_le_mono n n' (Zpos d) ltac:(lia) H) as Hq.
  set (q := (n / Zpos d)%Z) in *. set (r := (n mod Zpos d)%Z) in *.
  set (q' := (n' / Zpos d)%Z) in *. set (r' := (n' mod Zpos d)%Z) in *.
  cbv zeta.
  destruct (Z.eq_dec q q') as [Eq | Nq].
  - rewrite <- Eq in *.
    destruct (Z.compare_spec (2 * r) (Zpos d)), (Z.compare_spec (2 * r') (Zpos d));
      destruct (Z.even q); nia.
  - destruct (Z.compare_spec (2 * r) (Zpos d)), (Z.compare_spec (2 * r') (Zpos d));
      destruct (Z.even q), (Z.even q'); lia.
Qed.

Lemma round2_value (x : Q) :
  Dec2_to_Z (round2 x) = round_half_even (Qnum x * 100) (Qden x).
Proof.
  unfold Dec2_to_Z, round2. cbn [negativo centesimos].
  rewrite N2Z.inj_abs_N.
  pose proof (round_half_even_near (Qnum x * 100) (Qden x)) as Hnear.
  destruct (Z.ltb_spec (Qnum x) 0) as [Hneg | Hpos].
  - assert (round_half_even (Qnum x * 100) (Qden x) <= 0)%Z by nia. lia.
  - assert (0 <= round_half_even (Qnum x * 100) (Qden x))%Z by nia. lia.
Qed.



(** X17: the rounding keeps the order: of two values the smaller one is
    not shown as the greater. *)
Theorem round2_monotone (x y : Q) :
  (x <= y)%Q -> (Dec2_to_Z (round2 x) <= Dec2_to_Z (round2 y))%Z.
Proof.
  unfold Qle. intros H. rewrite !round2_value.
  rewrite <- (round_half_even_scale (Qnum x * 100) (Qden x) (Qden y)).
  rewrite <- (round_half_even_scale (Qnum y * 100) (Qden y) (Qden x)).
  rewrite (Pos.mul_comm (Qden y) (Qden x)).
  apply round_half_even_mono. nia.
Qed.

Lemma round2_monotone_witness :
  (Dec2_to_Z (round2 (-1 # 1000)%Q) <= Dec2_to_Z (round2 (1005 # 1000)%Q))%Z.
Proof.
  apply (round2_monotone (-1 # 1000)%Q (1005 # 1000)%Q). discriminate.
Defined.

(** X18: in the cells of the table the text [nan] stands for the blanks
    and for nothing else: a number is never written as [nan]. *)
Theorem format_2f_nan (x : option Dec2) :
  format_2f x = py "nan" <-> x = None.
Proof.
  split; [|intros ->; reflexivity].
  destruct x as [d|]; [|reflexivity]. intros H. exfalso.
  unfold format_2f in H.
  assert (Hlen : length ((if negativo d then py "-" else [])
                         ++ digits (centesimos d / 100)) = 0).
  { apply (f_equal (@length codepoint)) in H.
    rewrite app_assoc, length_app in H. cbn [length] in H.
    change (length (py "nan")) with 3 in H. lia. }
  apply length_zero_iff_nil in Hlen. rewrite app_assoc, Hlen in H.
  discriminate H.
Qed.

(** X19: every row of a table built from the records of [df_final] is
    given a colour, blue for Zebu and orange for Hibrido, one style for
    each of its entries: the uncoloured case of [color_row_by_race] does
    not occur. *)
Theorem rows_are_coloured (df : DataFrame) (ind : str)
  (resto meses_escolhidos racas_escolhidas : list str) :
  exists t,
    df_merge (df_final (map linha_longa (melt df))) (ind :: resto)
             meses_escolhidos racas_escolhidas = Some t
    /\ forall l, In l (linhas (df_show t meses_escolhidos)) ->
         (l_Raca l = Zebu
          /\ color_row_by_race l
             = repeat (py "background-color: #e6f2ff;") (2 + length (ind :: resto)))
         \/ (l_Raca l = Hibrido
             /\ color_row_by_race l
                = repeat (py "background-color: #fff2e6;")
                         (2 + length (ind :: resto))).
Proof.
  destruct (df_merge_inv (df_final (map linha_longa (melt df)))
              meses_escolhidos racas_escolhidas ind resto)
    as [t [Ht [Hcols [Hlen [Hprov _]]]]].
  exists t. split; [exact Ht|]. intros l Hl.
  apply df_show_in in Hl as [l0 [Hl0 [Hk Hv]]].
  assert (Hn : length (l_Valor l) = length (ind :: resto))
    by (rewrite Hv, length_map, (Hlen l0 Hl0), Hcols; reflexivity).
  destruct (Hprov l0 Hl0) as [i [w [_ Hw]]].
  unfold df_ind in Hw. apply in_map_iff in Hw as [reg [E Hreg]].
  apply filter_In in Hreg as [Hreg _].
  unfold df_final in Hreg. apply in_flat_map in Hreg as [lg [_ Hreg]].
  apply manter_in in Hreg as [_ [_ [_ [_ Hb]]]].
  unfold chave in Hk, E. injection E as Em Eb Ev. injection Hk as Hm Hk.
  rewrite Eb, <- Hk in Hb. unfold color_row_by_race. rewrite Hn.
  destruct Hb as [Hb | Hb]; rewrite Hb; [left | right]; split; reflexivity.
Qed.

(* ================================================================== *)
(** ** The blank rows and columns of the sheet *)

Lemma escolher_in {A : Type} (js : list nat) (l : list A) (x : A) :
  In x (escolher js l) <-> exists j, In j js /\ nth_error l j = Some x.
Proof.
  unfold escolher. rewrite in_flat_map. split.
  - intros [j [Hj Hx]]. exists j. split; [assumption|].
    destruct (nth_error l j) as [y|]; [|contradiction].
    destruct Hx as [<- | []]. reflexivity.
  - intros [j [Hj E]]. exists j. split; [assumption|]. rewrite E. now left.
Qed.

Lemma escolher_cons {A : Type} (j : nat) (js : list nat) (l : list A) :
  escolher (j :: js) l
  = match nth_error l j with
    | Some x => x :: escolher js l
    | None => escolher js l
    end.
Proof. unfold escolher. simpl. now destruct (nth_error l j). Qed.

Lemma escolher_length {A : Type} (js : list nat) (l : list A) :
  (forall j, In j js -> j < length l) -> length (escolher js l) = length js.
Proof.
  induction js as [|j js IH]; intros H; [reflexivity|].
  rewrite escolher_cons.
  destruct (nth_error l j) as [x|] eqn:E.
  - cbn [length]. f_equal. apply IH. intros k Hk. apply H. now right.
  - apply nth_error_None in E. specialize (H j (or_introl eq_refl)). lia.
Qed.

Lemma nth_error_escolher {A : Type} (js : list nat) (l : list A) (k j : nat) :
  (forall i, In i js -> i < length l) ->
  nth_error js k = Some j ->
  nth_error (escolher js l) k = nth_error l j.
Proof.
  revert k. induction js as [|i js IH]; intros k H Hk; [destruct k; discriminate|].
  rewrite escolher_cons.
  destruct (nth_error l i) as [x|] eqn:E.
  - destruct k as [|k]; cbn [nth_error] in Hk |- *.
    + injection Hk as <-. now rewrite E.
    + apply IH; [|assumption]. intros i' Hi'. apply H. now right.
  - apply nth_error_None in E. specialize (H i (or_introl eq_refl)). lia.
Qed.

Lemma escolher_seq {A : Type} (l pre : list A) :
  escolher (seq (length pre) (length l)) (pre ++ l) = l.
Proof.
  revert pre. induction l as [|x l IH]; intros pre; [reflexivity|].
  cbn [length seq]. rewrite escolher_cons.
  rewrite nth_error_app2, Nat.sub_diag by lia. cbn [nth_error]. f_equal.
  specialize (IH (pre ++ [x])).
  rewrite length_app, <- app_assoc in IH. cbn [length app] in IH.
  rewrite Nat.add_1_r in IH. exact IH.
Qed.

Lemma filter_all {A : Type} (f : A -> bool) (l : list A) :
  (forall x, In x l -> f x = true) -> filter f l = l.
Proof.
  induction l as [|x l IH]; intros H; simpl; [reflexivity|].
  rewrite (H x (or_introl eq_refl)). f_equal. apply IH.
  intros y Hy. apply H. now right.
Qed.

Lemma filter_none {A : Type} (f : A -> bool) (l : list A) :
  (forall x, In x l -> f x = false) -> filter f l = [].
Proof.
  induction l as [|x l IH]; intros H; simpl; [reflexivity|].
  rewrite (H x (or_introl eq_refl)). apply IH.
  intros y Hy. apply H. now right.
Qed.

Lemma forallb_false_exists {A : Type} (f : A -> bool) (l : list A) :
  forallb f l = false <-> exists x, In x l /\ f x = false.
Proof.
  induction l as [|x l IH]; simpl.
  - split; [discriminate | intros [x [[] _]]].
  - rewrite andb_false_iff, IH. split.
    + intros [H | [y [Hy H]]]; [exists x; split; [now left | assumption]|].
      exists y. split; [now right | assumption].
    + intros [y [[<- | Hy] H]]; [now left|]. right. now exists y.
Qed.

(** What holds of a sheet after the two [dropna]. *)
Lemma carregar_inv (p : Planilha) :
  planilha_retangular p = true ->
  (forall r, In r (corpo (carregar p)) ->
             length r = length (cabecalho (carregar p)))
  /\ (forall r, In r (corpo (carregar p)) -> forallb vazia r = false)
  /\ (forall j, j < length (cabecalho (carregar p)) ->
                coluna_viva (corpo (carregar p)) j = true).
Proof.
  intros Hrect. unfold planilha_retangular in Hrect.
  rewrite forallb_forall in Hrect.
  unfold carregar, dropna_colunas. cbn [cabecalho corpo dropna_linhas].
  set (R := filter (fun r => negb (forallb vazia r)) (corpo p)).
  set (n := length (cabecalho p)).
  set (vivas := filter (coluna_viva R) (seq 0 n)).
  assert (HR : forall r, In r R -> length r = n /\ forallb vazia r = false).
  { intros r Hr. apply filter_In in Hr as [Hr Ha]. split.
    - apply Nat.eqb_eq. now apply Hrect.
    - now apply negb_true_iff. }
  assert (Hv : forall j, In j vivas -> j < n /\ coluna_viva R j = true).
  { intros j Hj. apply filter_In in Hj as [Hj Ha]. apply in_seq in Hj.
    split; [lia | assumption]. }
  assert (Hcab : length (escolher vivas (cabecalho p)) = length vivas).
  { apply escolher_length. intros j Hj. now apply Hv. }
  split; [|split].
  - intros r' Hr'. apply in_map_iff in Hr' as [r [<- Hr]].
    rewrite Hcab. apply escolher_length. intros j Hj.
    rewrite (proj1 (HR r Hr)). now apply Hv.
  - intros r' Hr'. apply in_map_iff in Hr' as [r [<- Hr]].
    destruct (HR r Hr) as [Hlen Hb].
    apply forallb_false_exists in Hb as [c [Hc Hnb]].
    apply forallb_false_exists. exists c. split; [|assumption].
    apply In_nth_error in Hc as [j Hj]. apply escolher_in. exists j.
    split; [|assumption].
    assert (Hjn : j < n) by (rewrite <- Hlen; apply nth_error_Some; congruence).
    apply filter_In. split; [apply in_seq; lia|].
    apply existsb_exists. exists r. split; [assumption|].
    rewrite (nth_error_nth r j None Hj). now apply negb_true_iff.
  - intros k Hk. rewrite Hcab in Hk.
    destruct (nth_error vivas k) as [j|] eqn:Ej;
      [|apply nth_error_None in Ej; lia].
    destruct (Hv j (nth_error_In _ _ Ej)) as [Hjn Ha].
    apply existsb_exists in Ha as [r [Hr Hnb]].
    apply existsb_exists. exists (escolher vivas r).
    split; [apply in_map; assumption|].
    assert (Hall : forall i, In i vivas -> i < length r)
      by (intros i Hi; rewrite (proj1 (HR r Hr)); now apply Hv).
    pose proof (nth_error_escolher vivas r k j Hall Ej) as E.
    assert (Hjr : j < length r) by (rewrite (proj1 (HR r Hr)); exact Hjn).
    rewrite (nth_error_nth' r None Hjr) in E.
    now rewrite (nth_error_nth _ _ None E).
Qed.

(** X20: after the two [dropna] every row has a cell that is not blank,
    and so has every column; the rows still have one cell for each
    header. *)
Theorem carregar_no_blank (p : Planilha) :
  planilha_retangular p = true ->
  planilha_retangular (carregar p) = true
  /\ (forall r, In r (corpo (carregar p)) -> exists c, In (Some c) r)
  /\ (forall j, j < length (cabecalho (carregar p)) ->
        exists r c, In r (corpo (carregar p)) /\ nth_error r j = Some (Some c)).
Proof.
  intros Hrect. destruct (carregar_inv p Hrect) as [Hlen [Hrow Hcol]].
  split; [|split].
  - unfold planilha_retangular. apply forallb_forall. intros r Hr.
    apply Nat.eqb_eq. now apply Hlen.
  - intros r Hr. specialize (Hrow r Hr).
    apply forallb_false_exists in Hrow as [[c|] [Hc Hnb]]; [|discriminate].
    now exists c.
  - intros j Hj. specialize (Hcol j Hj).
    apply existsb_exists in Hcol as [r [Hr Hnb]].
    destruct (nth j r None) as [c|] eqn:E; [|discriminate].
    exists r, c. split; [assumption|].
    assert (Hjr : j < length r) by (rewrite (Hlen r Hr); exact Hj).
    now rewrite (nth_error_nth' r None Hjr), E.
Qed.

Lemma carregar_no_blank_witness :
  planilha_retangular (carregar exemplo_com_brancos) = true
  /\ (forall r, In r (corpo (carregar exemplo_com_brancos)) ->
                exists c, In (Some c) r)
  /\ (forall j, j < length (cabecalho (carregar exemplo_com_brancos)) ->
        exists r c, In r (corpo (carregar exemplo_com_brancos))
                    /\ nth_error r j = Some (Some c)).
Proof.
  apply (carregar_no_blank exemplo_com_brancos). reflexivity.
Defined.

(** X21: the two [dropna] together are idempotent: on a sheet that went
    through them they drop nothing more. *)
Theorem carregar_idempotent (p : Planilha) :
  planilha_retangular p = true ->
  carregar (carregar p) = carregar p.
Proof.
  intros Hrect. destruct (carregar_inv p Hrect) as [Hlen [Hrow Hcol]].
  destruct (carregar p) as [cab cor]. cbn [cabecalho corpo] in *.
  unfold carregar, dropna_colunas, dropna_linhas. cbn [cabecalho corpo].
  assert (Hf : filter (fun r => negb (forallb vazia r)) cor = cor).
  { apply filter_all. intros r Hr. now rewrite (Hrow r Hr). }
  rewrite Hf.
  assert (Hv : filter (coluna_viva cor) (seq 0 (length cab)) = seq 0 (length cab)).
  { apply filter_all. intros j Hj. apply in_seq in Hj. apply Hcol. lia. }
  rewrite Hv. f_equal.
  - exact (escolher_seq cab []).
  - rewrite <- (map_id cor) at 2. apply map_ext_in. intros r Hr.
    rewrite <- (Hlen r Hr). exact (escolher_seq r []).
Qed.

Lemma carregar_idempotent_witness :
  carregar (carregar exemplo_com_brancos) = carregar exemplo_com_brancos.
Proof.
  apply (carregar_idempotent exemplo_com_brancos). reflexivity.
Defined.

(** X22: a sheet without a cell that is not blank (or without rows) loses
    all its rows and all its columns, and the run then ends in the
    [IndexError] of [orig[0]], before anything is shown. *)
Theorem blank_sheet_raises (U : UnicodeData) (p : Planilha) :
  (forall r, In r (corpo p) -> forallb vazia r = true) ->
  carregar p = {| cabecalho := []; corpo := [] |}
  /\ tipar (carregar p) = Some {| columns := []; rows := [] |}
  /\ run (preparar {| columns := []; rows := [] |}) = (Raised IndexError, []).
Proof.
  intros H.
  assert (E : carregar p = {| cabecalho := []; corpo := [] |}).
  { unfold carregar, dropna_colunas, dropna_linhas. cbn [cabecalho corpo].
    rewrite (filter_none (fun r => negb (forallb vazia r)) (corpo p))
      by (intros r Hr; now rewrite (H r Hr)).
    rewrite (filter_none (coluna_viva []) (seq 0 (length (cabecalho p))))
      by reflexivity.
    reflexivity. }
  split; [exact E|]. rewrite E. split; reflexivity.
Qed.

Lemma blank_sheet_raises_witness :
  carregar exemplo_em_branco = {| cabecalho := []; corpo := [] |}
  /\ tipar (carregar exemplo_em_branco) = Some {| columns := []; rows := [] |}
  /\ run (preparar (U := Latin.ucd) {| columns := []; rows := [] |})
     = (Raised IndexError, []).
Proof.
  apply (blank_sheet_raises Latin.ucd exemplo_em_branco).
  intros r [<- | [<- | []]]; reflexivity.
Defined.

Lemma escolher_keeps_cells (a : nat -> bool) (r pre : list (option celula)) :
  (forall j c, nth_error (pre ++ r) j = Some c -> vazia c = false -> a j = true) ->
  filter (fun c => negb (vazia c))
         (escolher (filter a (seq (length pre) (length r))) (pre ++ r))
  = filter (fun c => negb (vazia c)) r.
Proof.
  revert pre. induction r as [|x r IH]; intros pre H; [reflexivity|].
  cbn [length seq filter].
  assert (Hx : nth_error (pre ++ x :: r) (length pre) = Some x)
    by (rewrite nth_error_app2, Nat.sub_diag by lia; reflexivity).
  assert (Hrest : filter (fun c => negb (vazia c))
                    (escolher (filter a (seq (S (length pre)) (length r)))
                              (pre ++ x :: r))
                  = filter (fun c => negb (vazia c)) r).
  { specialize (IH (pre ++ [x])).
    rewrite length_app, <- app_assoc in IH. cbn [length app] in IH.
    rewrite Nat.add_1_r in IH. apply IH. exact H. }
  destruct (a (length pre)) eqn:Ea.
  - rewrite escolher_cons, Hx. cbn [filter]. now rewrite Hrest.
  - rewrite Hrest. destruct (vazia x) eqn:Ex; [reflexivity|].
    rewrite (H (length pre) x Hx Ex) in Ea. discriminate.
Qed.

(** X23: the two [dropna] lose no cell: row by row, the cells that are not
    blank are those of the sheet, in their order, the rows without such a
    cell left out. *)
Theorem carregar_keeps_cells (p : Planilha) :
  planilha_retangular p = true ->
  map (filter (fun c => negb (vazia c))) (corpo (carregar p))
  = filter (fun l => negb (Nat.eqb (length l) 0))
           (map (filter (fun c => negb (vazia c))) (corpo p)).
Proof.
  intros Hrect. unfold planilha_retangular in Hrect.
  rewrite forallb_forall in Hrect.
  unfold carregar, dropna_colunas. cbn [cabecalho corpo dropna_linhas].
  set (R := filter (fun r => negb (forallb vazia r)) (corpo p)).
  rewrite map_map.
  assert (Hrows : map (fun r => filter (fun c => negb (vazia c))
                          (escolher (filter (coluna_viva R)
                                       (seq 0 (length (cabecalho p)))) r)) R
                  = map (filter (fun c => negb (vazia c))) R).
  { apply map_ext_in. intros r Hr.
    assert (Hlen : length r = length (cabecalho p)).
    { apply filter_In in Hr as [Hr _]. apply Nat.eqb_eq. now apply Hrect. }
    rewrite <- Hlen.
    apply (escolher_keeps_cells (coluna_viva R) r []).
    intros j c Hj Hc. cbn [app] in Hj. apply existsb_exists. exists r.
    split; [assumption|]. rewrite (nth_error_nth r j None Hj).
    now apply negb_true_iff. }
  rewrite Hrows. unfold R. clear.
  induction (corpo p) as [|r rs IH]; [reflexivity|]. cbn [filter map].
  assert (E : negb (forallb vazia r)
              = negb (Nat.eqb (length (filter (fun c => negb (vazia c)) r)) 0)).
  { f_equal. induction r as [|c r IHr]; [reflexivity|]. cbn [forallb filter].
    destruct (vazia c); cbn; [exact IHr | reflexivity]. }
  rewrite <- E. destruct (negb (forallb vazia r)); cbn [map]; now rewrite IH.
Qed.

Lemma carregar_keeps_cells_witness :
  map (filter (fun c => negb (vazia c))) (corpo (carregar exemplo_com_brancos))
  = filter (fun l => negb (Nat.eqb (length l) 0))
           (map (filter (fun c => negb (vazia c))) (corpo exemplo_com_brancos)).
Proof.
  apply (carregar_keeps_cells exemplo_com_brancos). reflexivity.
Defined.

